(** * masplit: splitting a matrix of delimited strings

    A shallow embedding of [src/masplit.cpp] (package vcfR) and the
    properties of its cell reduction: split, parse, optionally sort, then
    count or select.

    Layout of the development:
    - [Float32], [Float64]: the IEEE formats of C++ [float] and R numerics,
      on the Standard Library's [spec_float];
    - [IStream]: the formatted extraction [ss >> x] of a [float];
    - [vcfRCommon]: the string splitter the source calls;
    - [Rcpp]: string and numeric matrices;
    - the functions of the source file, [str_vec_to_float_vec] and [masplit];
    - the theorems. *)

From Stdlib Require Import ZArith String Ascii List Bool Lia.
From Stdlib Require Import Sorting.Sorted Floats.SpecFloat.
From stdpp Require Import base tactics option list.

Local Open Scope Z_scope.

(** ** Floating-point formats *)

(** C++ [float]: IEEE 754 binary32. *)
Module Float32.
Definition prec : Z := 24.
Definition emax : Z := 128.

Definition float : Type := spec_float.

Definition zero : float := S754_zero false.
Definition max_float : float := SFmax_float prec emax.

(** [a < b] and [a > b] of the language, false when an operand is a NaN. *)
Definition lt (a b : float) : bool := SFltb a b.
Definition gt (a b : float) : bool := SFltb b a.
Definition le (a b : float) : bool := SFleb a b.
Definition ge (a b : float) : bool := SFleb b a.

Definition is_nan (a : float) : bool :=
  match a with S754_nan => true | _ => false end.

(** A lexicographic key that orders the floats other than NaN. *)
Definition key (x : float) : Z * Z * Z :=
  match x with
  | S754_zero _ => (0, 0, 0)
  | S754_infinity s => (if s then -2 else 2, 0, 0)
  | S754_nan => (0, 0, 0)
  | S754_finite s m e => if s then (-1, - e, Zneg m) else (1, e, Zpos m)
  end.

Definition key_lt (a b : Z * Z * Z) : Prop :=
  a.1.1 < b.1.1 \/
  (a.1.1 = b.1.1 /\ (a.1.2 < b.1.2 \/ (a.1.2 = b.1.2 /\ a.2 < b.2))).

(** The float nearest to [(-1)^neg * m * 10^e10], ties to even: what
    [strtof] computes for a decimal literal whose digits read [m] when the
    decimal point is moved to their right. *)
Definition of_decimal (neg : bool) (m : Z) (e10 : Z) : float :=
  match m with
  | Zpos p =>
      match e10 with
      | Zneg k =>
          let '(q, e, l) :=
            SFdiv_core_binary prec emax (Zpos p) 0 (10 ^ Zpos k) 0 in
          binary_round_aux prec emax neg q e l
      | _ => binary_round prec emax neg (Z.to_pos (Zpos p * 10 ^ e10)) 0
      end
  | _ => S754_zero neg
  end.
End Float32.

(** R numerics (C++ [double]): IEEE 754 binary64. *)
Module Float64.
Definition prec : Z := 53.
Definition emax : Z := 1024.

Definition double : Type := spec_float.

Definition zero : double := S754_zero false.

(** Implicit conversion [float -> double]; it is exact. *)
Definition of_float (f : Float32.float) : double :=
  match f with
  | S754_finite s m e => binary_round prec emax s m e
  | _ => f
  end.

(** Implicit conversion [size_t -> double]. *)
Definition of_size (n : nat) : double :=
  binary_normalize prec emax (Z.of_nat n) 0 false.
End Float64.

(** ** Formatted input of a float *)

Module IStream.
Import Float32.

(** What [ss >> x] does to a [float] lvalue [x] that holds zero, after
    ISO C++ [facet.num.get.virtuals], stage 3:
    - [Extracted v]: a literal was read, [v] is stored, the stream is good;
    - [NoConversion]: no literal could be read; [failbit] is set and the
      target holds zero afterwards (it is left alone when the stream is
      already exhausted, and zero is stored otherwise);
    - [OutOfRange v]: a literal was read whose value is too large for a
      float; [failbit] is set and the most positive or negative float [v]
      is stored. *)
Inductive extraction : Type :=
| Extracted (v : float)
| NoConversion
| OutOfRange (v : float).

Definition code (c : ascii) : Z := Z.of_N (N_of_ascii c).

(** [isspace] in the C locale. *)
Definition isspace (c : ascii) : bool :=
  let n := code c in (n =? 32) || ((9 <=? n) && (n <=? 13)).

Definition digit (c : ascii) : option Z :=
  let n := code c in
  if (48 <=? n) && (n <=? 57) then Some (n - 48) else None.

Fixpoint skipws (s : string) : string :=
  match s with
  | String c s' => if isspace c then skipws s' else s
  | EmptyString => s
  end.

(** Reads a run of digits: the number read so far, how many digits were
    read, and the rest of the input. *)
Fixpoint digits (s : string) (acc : Z) (n : Z) : Z * Z * string :=
  match s with
  | String c s' =>
      match digit c with
      | Some d => digits s' (10 * acc + d) (n + 1)
      | None => (acc, n, s)
      end
  | EmptyString => (acc, n, s)
  end.

Definition sign (s : string) : bool * string :=
  match s with
  | String "-" s' => (true, s')
  | String "+" s' => (false, s')
  | _ => (false, s)
  end.

(** The exponent part: [Some 0] when there is none, [None] when an
    exponent marker is not followed by digits. *)
Definition exponent (s : string) : option Z :=
  match s with
  | String c s' =>
      if (code c =? 101) || (code c =? 69) then
        let '(neg, s'') := sign s' in
        let '(e, n, _) := digits s'' 0 0 in
        if n =? 0 then None else Some (if neg then - e else e)
      else Some 0
  | EmptyString => Some 0
  end.

(** [ss >> x] on a stream holding [s]: leading white space is skipped,
    then the longest [sign digits . digits exponent] prefix is read and
    what follows it stays in the stream.  An exponent marker without
    digits makes the conversion fail. *)
Definition extract (s : string) : extraction :=
  let '(neg, s1) := sign (skipws s) in
  let '(ip, n1, s2) := digits s1 0 0 in
  let '(m, n2, s3) :=
    match s2 with
    | String "." s2' => digits s2' ip 0
    | _ => (ip, 0, s2)
    end in
  if n1 + n2 =? 0 then NoConversion
  else
    match exponent s3 with
    | None => NoConversion
    | Some e =>
        match of_decimal neg m (e - n2) with
        | S754_infinity sg =>
            OutOfRange (if sg then SFopp max_float else max_float)
        | v => Extracted v
        end
    end.
End IStream.

(** ** The splitter *)

Module vcfRCommon.
(** Modelled from the spec: [vcfRCommon::strsplit] is declared in
    [vcfRCommon.h] and defined outside this source file.  The text is
    partitioned on the single delimiter character into an ordered sequence
    of substrings; consecutive delimiters are not merged and empty
    substrings are kept as tokens of their own.

    [cur] is the token being read. *)
Fixpoint split_from (s : string) (split : ascii) (cur : string)
  : list string :=
  match s with
  | EmptyString => [cur]
  | String c s' =>
      if Ascii.eqb c split then cur :: split_from s' split EmptyString
      else split_from s' split (cur ++ String c EmptyString)%string
  end.

(** [strsplit(mystring, vec_o_strings, split)] appends the tokens to
    [vec_o_strings]. *)
Definition strsplit (mystring : string) (vec_o_strings : list string)
    (split : ascii) : list string :=
  vec_o_strings ++ split_from mystring split EmptyString.
End vcfRCommon.

(** ** Matrices of the host runtime *)

Module Rcpp.
(** An element of a character vector. *)
Inductive CHARSXP : Type :=
| NA_STRING
| mkChar (s : string).

(** An element of a numeric vector: [NA_REAL] or an ordinary double. *)
Inductive Rdouble : Type :=
| NA_REAL
| Real (x : Float64.double).

(** The [dimnames] attribute: row names and column names, each optional. *)
Definition Dimnames : Type := option (list string) * option (list string).

(** Matrices are vectors in column-major order with their dimensions;
    the element at row [i] and column [j] has offset [i + j * nrow].  R
    keeps the vector at length [nrow * ncol]. *)
Record StringMatrix : Type := {
  s_nrow : nat;
  s_ncol : nat;
  s_data : list CHARSXP;
  s_dimnames : option Dimnames
}.

Record NumericMatrix : Type := {
  n_nrow : nat;
  n_ncol : nat;
  n_data : list Rdouble;
  n_dimnames : option Dimnames
}.

(** [myMat(i,j)] read as an rvalue.  An offset outside the vector does not
    occur for [i < nrow], [j < ncol] on a well-formed matrix. *)
Definition s_at (m : StringMatrix) (i j : nat) : CHARSXP :=
  default NA_STRING (s_data m !! (i + j * s_nrow m)%nat).

(** [Rcpp::NumericMatrix m(r, c)]: filled with zeros, no attributes. *)
Definition new_NumericMatrix (r c : nat) : NumericMatrix :=
  {| n_nrow := r; n_ncol := c;
     n_data := replicate (r * c) (Real Float64.zero);
     n_dimnames := None |}.

(** [m(i,j)] read, [None] outside the vector. *)
Definition n_at (m : NumericMatrix) (i j : nat) : option Rdouble :=
  n_data m !! (i + j * n_nrow m)%nat.

(** [m(i,j) = v]. *)
Definition n_set (m : NumericMatrix) (i j : nat) (v : Rdouble)
  : NumericMatrix :=
  {| n_nrow := n_nrow m; n_ncol := n_ncol m;
     n_data := <[(i + j * n_nrow m)%nat := v]> (n_data m);
     n_dimnames := n_dimnames m |}.

(** [m.attr("dimnames") = a]; assigning [NULL] leaves no attribute. *)
Definition set_dimnames (m : NumericMatrix) (a : option Dimnames)
  : NumericMatrix :=
  {| n_nrow := n_nrow m; n_ncol := n_ncol m; n_data := n_data m;
     n_dimnames := a |}.
End Rcpp.

Import Rcpp.

(** ** [std::sort] *)

(** [std::sort(first, last, comp)] is specified by its result: a
    rearrangement of the range in which no element precedes, by [comp], one
    that stands before it.  It is modelled by a stable insertion sort; for a
    strict weak order any implementation returns the same sequence up to the
    order of equivalent elements.  On floats these are [+0.0] and [-0.0]:
    which of the two a library's [std::sort] puts first is not fixed, and
    no statement below depends on it. *)
Section Sort.
Context {A : Type} (comp : A -> A -> bool).

Fixpoint sort_insert (x : A) (l : list A) : list A :=
  match l with
  | [] => [x]
  | y :: l' => if comp y x then y :: sort_insert x l' else x :: y :: l'
  end.

Fixpoint std_sort (l : list A) : list A :=
  match l with
  | [] => []
  | x :: l' => sort_insert x (std_sort l')
  end.

(** No element is preceded by one that [comp] puts after it. *)
Definition ordered (l : list A) : Prop :=
  StronglySorted (fun a b => comp b a = false) l.
End Sort.

(** ** The source file *)

(** [struct greater] and [struct lesser], instantiated at [float]. *)
Definition greater (a b : Float32.float) : bool := Float32.gt a b.
Definition lesser (a b : Float32.float) : bool := Float32.lt a b.

Definition msg_float : string := "Failed to convert to a float.".
Definition msg_record : string := "Specified record number is less than one.".
Definition msg_decreasing : string :=
  "Specification of 'decreasing' should be either 0 or 1.".

(** One iteration of the conversion loop: [float_vec] and the diagnostics
    written to [Rcpp::Rcerr] so far. *)
Definition convert_token (str_vec : list string)
    (acc : list Float32.float * list string) (i : nat)
  : list Float32.float * list string :=
  let '(float_vec, err) := acc in
  match str_vec !! i with
  | Some tok =>
      match IStream.extract tok with
      | IStream.Extracted v => (<[i := v]> float_vec, err)
      | IStream.NoConversion => (float_vec, err ++ [msg_float])
      | IStream.OutOfRange v => (<[i := v]> float_vec, err ++ [msg_float])
      end
  | None => acc
  end.

(** [str_vec_to_float_vec]: the vector starts as [str_vec.size()] zeros and
    every token is extracted into its slot. *)
Definition str_vec_to_float_vec (str_vec : list string)
  : list Float32.float * list string :=
  fold_left (convert_token str_vec) (seq 0 (length str_vec))
            (replicate (length str_vec) Float32.zero, []).

(** [delim[0]]; on an empty [std::string] this is the terminating null. *)
Definition first_char (delim : string) : ascii :=
  match delim with
  | String c _ => c
  | EmptyString => Ascii.zero
  end.

(** The arguments other than the matrix.  They are C++ [int]s; on every
    path below [record] is only decremented when it is at least one and only
    incremented after that, so no operation wraps and the integers are read
    as [Z]. *)
Record Config : Type := {
  delim : string;
  count : Z;
  record : Z;
  sort : Z;
  decreasing : Z
}.

(** The defaults of the signature. *)
Definition default_Config : Config :=
  {| delim := ","; count := 0; record := 1; sort := 1; decreasing := 1 |}.

(** The sorting step of the loop body; [None] is the branch that reports a
    bad [decreasing]. *)
Definition sort_records (cfg : Config) (float_vec : list Float32.float)
  : option (list Float32.float) :=
  if sort cfg =? 1 then
    if decreasing cfg =? 1 then Some (std_sort greater float_vec)
    else if decreasing cfg =? 0 then Some (std_sort lesser float_vec)
    else None
  else Some float_vec.

(** The selection step, with the zero-based [record]. *)
Definition select_record (record0 : Z) (float_vec : list Float32.float)
  : Rdouble :=
  if Z.of_nat (length float_vec) <? record0 + 1 then NA_REAL
  else Real (Float64.of_float
               (default Float32.zero (float_vec !! Z.to_nat record0))).

(** The body of the inner loop for one element of [myMat], with the
    zero-based [record]: the value assigned to [retMat(i,j)], or [None] for
    [return naMat], and the diagnostics written. *)
Definition reduce_cell (cfg : Config) (record0 : Z) (c : CHARSXP)
  : option Rdouble * list string :=
  match c with
  | mkChar my_string =>
      let my_split := first_char (delim cfg) in
      let col_vec := vcfRCommon.strsplit my_string [] my_split in
      let '(float_vec, err) := str_vec_to_float_vec col_vec in
      if count cfg =? 1 then
        (Some (Real (Float64.of_size (length float_vec))), err)
      else
        match sort_records cfg float_vec with
        | None => (None, err ++ [msg_decreasing])
        | Some float_vec => (Some (select_record record0 float_vec), err)
        end
  | NA_STRING => (Some NA_REAL, [])
  end.

(** The locals that change while [masplit] runs. *)
Record state : Type := {
  retMat : NumericMatrix;
  Rcerr : list string
}.

(** Control after a loop body: go on, or leave through [return naMat]. *)
Inductive flow : Type :=
| Next (st : state)
| Exit (st : state).

(** A [for] loop over the indices [idx] whose body may return. *)
Fixpoint for_each (body : nat -> state -> flow) (idx : list nat) (st : state)
  : flow :=
  match idx with
  | [] => Next st
  | i :: idx' =>
      match body i st with
      | Next st' => for_each body idx' st'
      | Exit st' => Exit st'
      end
  end.

Definition cell_step (myMat : StringMatrix) (cfg : Config) (record0 : Z)
    (i j : nat) (st : state) : flow :=
  let '(r, err) := reduce_cell cfg record0 (s_at myMat i j) in
  match r with
  | Some v =>
      Next {| retMat := n_set (retMat st) i j v; Rcerr := Rcerr st ++ err |}
  | None => Exit {| retMat := retMat st; Rcerr := Rcerr st ++ err |}
  end.

Definition cell_loops (myMat : StringMatrix) (cfg : Config) (record0 : Z)
    (st : state) : flow :=
  for_each
    (fun i => for_each (cell_step myMat cfg record0 i)
                       (seq 0 (n_ncol (retMat st))))
    (seq 0 (n_nrow (retMat st))) st.

(** The matrix returned on a configuration error. *)
Definition naMat : NumericMatrix :=
  n_set (new_NumericMatrix 1 1) 0 0 NA_REAL.

(** The two return statements of [masplit], with the locals at that point. *)
Inductive returned : Type :=
| ReturnNaMat (st : state)
| ReturnRetMat (st : state).

(** The locals when the tests and the loops start: [retMat] is zero-filled
    and carries the [dimnames] of [myMat]. *)
Definition initial (myMat : StringMatrix) : state :=
  {| retMat := set_dimnames (new_NumericMatrix (s_nrow myMat) (s_ncol myMat))
                            (s_dimnames myMat);
     Rcerr := [] |}.

Definition masplit_run (myMat : StringMatrix) (cfg : Config) : returned :=
  let st := initial myMat in
  if record cfg <? 1 then
    ReturnNaMat {| retMat := retMat st; Rcerr := Rcerr st ++ [msg_record] |}
  else
    let record0 := record cfg - 1 in
    match cell_loops myMat cfg record0 st with
    | Next st' => ReturnRetMat st'
    | Exit st' => ReturnNaMat st'
    end.

Definition locals (r : returned) : state :=
  match r with
  | ReturnNaMat st => st
  | ReturnRetMat st => st
  end.

(** The value of the call. *)
Definition masplit (myMat : StringMatrix) (cfg : Config) : NumericMatrix :=
  match masplit_run myMat cfg with
  | ReturnNaMat _ => naMat
  | ReturnRetMat st => retMat st
  end.

(** ** Notions used in the statements *)

(** The value left in the slot of [tok], and what is written to
    [Rcpp::Rcerr] for it. *)
Definition stored (tok : string) : Float32.float :=
  match IStream.extract tok with
  | IStream.Extracted v => v
  | IStream.NoConversion => Float32.zero
  | IStream.OutOfRange v => v
  end.

Definition diagnostic (tok : string) : list string :=
  match IStream.extract tok with
  | IStream.Extracted _ => []
  | _ => [msg_float]
  end.

(** What the loop body assigns to [retMat(i,j)]; [None] when it returns. *)
Definition cell_value (myMat : StringMatrix) (cfg : Config) (record0 : Z)
    (i j : nat) : option Rdouble :=
  (reduce_cell cfg record0 (s_at myMat i j)).1.

(** [retMat] keeps the shape and the labels of [myMat], and the elements
    selected by [D] hold their final value. *)
Definition filled (myMat : StringMatrix) (cfg : Config) (record0 : Z)
    (D : nat -> nat -> Prop) (st : state) : Prop :=
  n_nrow (retMat st) = s_nrow myMat /\
  n_ncol (retMat st) = s_ncol myMat /\
  n_dimnames (retMat st) = s_dimnames myMat /\
  length (n_data (retMat st)) = (s_nrow myMat * s_ncol myMat)%nat /\
  forall i j, D i j -> (i < s_nrow myMat)%nat -> (j < s_ncol myMat)%nat ->
              n_at (retMat st) i j = cell_value myMat cfg record0 i j.

(** How often the character [d] occurs in [s]. *)
Fixpoint occurrences (d : ascii) (s : string) : nat :=
  match s with
  | EmptyString => 0
  | String c s' => ((if Ascii.eqb c d then 1 else 0) + occurrences d s')%nat
  end.

(** The parsed sequence of a cell text. *)
Definition parsed (cfg : Config) (s : string) : list Float32.float :=
  (str_vec_to_float_vec
     (vcfRCommon.strsplit s [] (first_char (delim cfg)))).1.

(** A matrix with one row, one column and no labels. *)
Definition single (c : CHARSXP) : StringMatrix :=
  {| s_nrow := 1; s_ncol := 1; s_data := [c]; s_dimnames := None |}.

(** The double [12]. *)
Definition twelve : Float64.double :=
  binary_normalize Float64.prec Float64.emax 12 0 false.

(** ** Sample inputs *)

Definition sample : StringMatrix :=
  {| s_nrow := 2; s_ncol := 2;
     s_data := [mkChar "7,2,12"; NA_STRING; mkChar "9"; mkChar "a,,3.5"];
     s_dimnames := Some (Some ["Variant_1"; "Variant_2"]%string,
                         Some ["Sample_1"; "Sample_2"]%string) |}.

Definition with_decreasing (d : Z) (cfg : Config) : Config :=
  {| delim := delim cfg; count := count cfg; record := record cfg;
     sort := sort cfg; decreasing := d |}.

Definition with_record (r : Z) (cfg : Config) : Config :=
  {| delim := delim cfg; count := count cfg; record := r;
     sort := sort cfg; decreasing := decreasing cfg |}.

Definition with_count (c : Z) (cfg : Config) : Config :=
  {| delim := delim cfg; count := c; record := record cfg;
     sort := sort cfg; decreasing := decreasing cfg |}.

Definition with_sort (s : Z) (cfg : Config) : Config :=
  {| delim := delim cfg; count := count cfg; record := record cfg;
     sort := s; decreasing := decreasing cfg |}.

(** Whether the extraction of [tok] sets [failbit]. *)
Definition failed (tok : string) : bool :=
  match IStream.extract tok with
  | IStream.Extracted _ => false
  | _ => true
  end.

(** The sorting step is defined: [decreasing] is not looked at, or is 0
    or 1. *)
Definition sortable (cfg : Config) : Prop :=
  sort cfg <> 1 \/ decreasing cfg = 0 \/ decreasing cfg = 1.

(** Only conversion diagnostics have been written. *)
Definition only_conversion_diagnostics (err : list string) : Prop :=
  Forall (fun m => m = msg_float) err.

(** A matrix with no rows and three columns. *)
Definition no_rows : StringMatrix :=
  {| s_nrow := 0; s_ncol := 3; s_data := [];
     s_dimnames := Some (None, Some ["a"; "b"; "c"]%string) |}.

(** * Properties *)

(** ** Order facts on floats *)

Module Float32Facts.
Import Float32.

Lemma lt_key x y :
  is_nan x = false -> is_nan y = false ->
  lt x y = true <-> key_lt (key x) (key y).
Proof.
  unfold lt, SFltb, SFcompare, key_lt.
  destruct x as [sx|sx| |sx mx ex], y as [sy|sy| |sy my ey];
    simpl; try discriminate; intros _ _;
    try (destruct sx); try (destruct sy); simpl;
    try (split; [discriminate | lia]);
    try (split; [lia | reflexivity]);
    try (split; [reflexivity | lia]).
  - change (Pos.compare_cont Eq mx my) with (Pos.compare mx my).
    destruct (Z.compare_spec ex ey), (Pos.compare_spec mx my);
      simpl; split; intros; try discriminate; try reflexivity; lia.
  - change (Pos.compare_cont Eq mx my) with (Pos.compare mx my).
    destruct (Z.compare_spec ex ey), (Pos.compare_spec mx my);
      simpl; split; intros; try discriminate; try reflexivity; lia.
Qed.

Lemma le_key x y :
  is_nan x = false -> is_nan y = false ->
  le x y = true <-> ~ key_lt (key y) (key x).
Proof.
  unfold le, SFleb, SFcompare, key_lt.
  destruct x as [sx|sx| |sx mx ex], y as [sy|sy| |sy my ey];
    simpl; try discriminate; intros _ _;
    try (destruct sx); try (destruct sy); simpl;
    try (split; [discriminate | lia]);
    try (split; [lia | reflexivity]);
    try (split; [reflexivity | lia]).
  - change (Pos.compare_cont Eq mx my) with (Pos.compare mx my).
    destruct (Z.compare_spec ex ey), (Pos.compare_spec mx my);
      simpl; split; intros; try discriminate; try reflexivity; lia.
  - change (Pos.compare_cont Eq mx my) with (Pos.compare mx my).
    destruct (Z.compare_spec ex ey), (Pos.compare_spec mx my);
      simpl; split; intros; try discriminate; try reflexivity; lia.
Qed.

Lemma lt_nan_l y : lt S754_nan y = false.
Proof. reflexivity. Qed.

Lemma lt_nan_r x : lt x S754_nan = false.
Proof. destruct x; reflexivity. Qed.

(** [<] is asymmetric on all floats. *)
Lemma lt_asym x y : lt x y = true -> lt y x = false.
Proof.
  intros H.
  destruct (is_nan x) eqn:Hx; [destruct x; discriminate|].
  destruct (is_nan y) eqn:Hy;
    [destruct y; try discriminate; apply lt_nan_l|].
  apply lt_key in H; [|assumption..].
  destruct (lt y x) eqn:E; [|reflexivity].
  apply lt_key in E; [|assumption..].
  unfold key_lt in *. lia.
Qed.

(** Away from NaN, "not less" is transitive. *)
Lemma lt_negtrans x y z :
  is_nan x = false -> is_nan y = false -> is_nan z = false ->
  lt x y = false -> lt y z = false -> lt x z = false.
Proof.
  intros Hx Hy Hz H1 H2.
  destruct (lt x z) eqn:E; [|reflexivity].
  apply lt_key in E; [|assumption..].
  assert (~ key_lt (key x) (key y)) as N1
    by (rewrite <- lt_key by assumption; congruence).
  assert (~ key_lt (key y) (key z)) as N2
    by (rewrite <- lt_key by assumption; congruence).
  unfold key_lt in *. lia.
Qed.

(** Away from NaN, "not less" is "greater or equal". *)
Lemma not_lt_ge x y :
  is_nan x = false -> is_nan y = false ->
  lt x y = false -> ge x y = true.
Proof.
  intros Hx Hy H. unfold ge. change (le y x = true).
  apply le_key; [assumption..|].
  rewrite <- lt_key by assumption. congruence.
Qed.
End Float32Facts.

(** ** Extraction never stores a NaN *)

Module IStreamFacts.
Import Float32 IStream.

Lemma shr_1_nonneg mrs : 0 <= shr_m mrs -> 0 <= shr_m (shr_1 mrs).
Proof.
  destruct mrs as [m r s]; simpl.
  destruct m as [|[p|p|]|p]; simpl; lia.
Qed.

Lemma iter_pos_nonneg p mrs :
  0 <= shr_m mrs -> 0 <= shr_m (SpecFloat.iter_pos shr_1 p mrs).
Proof.
  revert mrs; induction p as [p IH|p IH|]; intros mrs H; simpl;
    auto using shr_1_nonneg.
Qed.

Lemma shr_fexp_nonneg pr em m e l :
  0 <= m -> 0 <= shr_m (shr_fexp pr em m e l).1.
Proof.
  intros H. unfold shr_fexp, shr.
  assert (0 <= shr_m (shr_record_of_loc m l)) as H0
    by (destruct l as [|[]]; exact H).
  destruct (fexp pr em (Zdigits2 m + e) - e); simpl;
    auto using iter_pos_nonneg.
Qed.

Lemma round_nearest_even_nonneg m l :
  0 <= m -> 0 <= round_nearest_even m l.
Proof.
  intros H. unfold round_nearest_even.
  destruct l as [|[]]; try destruct (Z.even m); lia.
Qed.

Lemma binary_round_aux_not_nan pr em sx mx ex lx :
  0 <= mx -> is_nan (binary_round_aux pr em sx mx ex lx) = false.
Proof.
  intros H. unfold binary_round_aux.
  pose proof (shr_fexp_nonneg pr em mx ex lx H) as H1.
  destruct (shr_fexp pr em mx ex lx) as [mrs' e']; simpl in H1.
  pose proof (shr_fexp_nonneg pr em _ e' loc_Exact
                (round_nearest_even_nonneg _ (loc_of_shr_record mrs') H1))
    as H2.
  destruct (shr_fexp pr em _ e' loc_Exact) as [mrs'' e'']; simpl in H2.
  destruct (shr_m mrs''); [reflexivity| |lia].
  destruct (e'' <=? em - pr); reflexivity.
Qed.

Lemma of_decimal_not_nan neg m e10 : is_nan (of_decimal neg m e10) = false.
Proof.
  unfold of_decimal. destruct m as [|p|p]; try reflexivity.
  assert (forall x, is_nan (binary_round prec emax neg x 0) = false) as B.
  { intros x. unfold binary_round.
    destruct (shl_align _ _ _) as [mz ez].
    apply binary_round_aux_not_nan. lia. }
  destruct e10 as [|k|k]; try apply B.
  unfold SFdiv_core_binary.
  set (m' := match _ - _ with Z0 => _ | Zpos _ => _ | Zneg _ => _ end).
  assert (0 <= m') as Hm.
  { subst m'. destruct (_ - _); try lia. apply Z.shiftl_nonneg. lia. }
  pose proof (Z.div_pos m' (10 ^ Zpos k) Hm ltac:(lia)) as Hq.
  unfold Z.div in Hq.
  destruct (Z.div_eucl m' (10 ^ Zpos k)) as [q r].
  apply binary_round_aux_not_nan. exact Hq.
Qed.

(** The value found in a slot after the extraction of [tok] into it. *)
Lemma extract_not_nan tok v :
  extract tok = Extracted v \/ extract tok = OutOfRange v ->
  is_nan v = false.
Proof.
  unfold extract.
  destruct (sign (skipws tok)) as [neg s1].
  destruct (digits s1 0 0) as [[ip n1] s2].
  destruct (match s2 with
            | String "." s2' => digits s2' ip 0
            | _ => (ip, 0, s2)
            end) as [[m n2] s3].
  destruct (n1 + n2 =? 0); [intros [?|?]; discriminate|].
  destruct (exponent s3) as [e|]; [|intros [?|?]; discriminate].
  pose proof (of_decimal_not_nan neg m (e - n2)) as N.
  destruct (of_decimal neg m (e - n2)) as [s|s| |s mm ee];
    try discriminate; intros [H|H]; inversion H; subst; try reflexivity.
  destruct s; reflexivity.
Qed.
End IStreamFacts.

(** ** The sort *)

Section SortFacts.
Context {A : Type} (comp : A -> A -> bool) (ok : A -> Prop).

Hypothesis comp_asym : forall a b, comp a b = true -> comp b a = false.
Hypothesis comp_negtrans :
  forall a b c, ok a -> ok b -> ok c ->
                comp a b = false -> comp b c = false -> comp a c = false.

Lemma sort_insert_perm x l : sort_insert comp x l ≡ₚ x :: l.
Proof.
  induction l as [|y l IH]; simpl; [reflexivity|].
  destruct (comp y x); [|reflexivity].
  rewrite IH. apply Permutation_swap.
Qed.

Lemma std_sort_perm l : std_sort comp l ≡ₚ l.
Proof.
  induction l as [|x l IH]; simpl; [reflexivity|].
  rewrite sort_insert_perm, IH. reflexivity.
Qed.

Lemma std_sort_length l : length (std_sort comp l) = length l.
Proof. apply Permutation_length, std_sort_perm. Qed.

Lemma sort_insert_ordered x l :
  ok x -> Forall ok l -> ordered comp l ->
  ordered comp (sort_insert comp x l).
Proof.
  unfold ordered. intros Hx Hl Hs. induction Hs as [|y l Hs IH Hy]; simpl.
  - repeat constructor.
  - apply Forall_cons in Hl as [Hoy Hol].
    destruct (comp y x) eqn:E.
    + constructor; [apply IH; assumption|].
      rewrite sort_insert_perm. constructor; [|assumption].
      apply comp_asym, E.
    + constructor; [constructor; assumption|].
      constructor; [assumption|].
      rewrite Forall_forall in Hy, Hol |- *.
      intros z Hz. apply (comp_negtrans z y x); auto.
Qed.

Lemma std_sort_ordered l : Forall ok l -> ordered comp (std_sort comp l).
Proof.
  induction l as [|x l IH]; simpl; intros H; [constructor|].
  apply Forall_cons in H as [Hx Hl].
  apply sort_insert_ordered; auto.
  rewrite std_sort_perm. assumption.
Qed.

Lemma ordered_lookup l p q a b :
  ordered comp l -> (p < q)%nat -> l !! p = Some a -> l !! q = Some b ->
  comp b a = false.
Proof.
  unfold ordered. intros Hs. revert p q.
  induction Hs as [|x l Hs IH Hx]; intros p q Hpq Hp Hq.
  - discriminate.
  - destruct q as [|q]; [lia|]. destruct p as [|p]; simpl in *.
    + inversion Hp; subst. rewrite Forall_lookup in Hx. eapply Hx, Hq.
    + apply (IH p q); [lia|assumption..].
Qed.
End SortFacts.

(** ** The conversion loop *)

Lemma slot_fill (l : list string) (k : nat) (tok : string) :
  l !! k = Some tok ->
  <[k := stored tok]>
    (map stored (take k l) ++ replicate (length l - k) Float32.zero)
  = map stored (take (S k) l) ++ replicate (length l - S k) Float32.zero.
Proof.
  intros H. pose proof (lookup_lt_Some _ _ _ H) as Hk.
  assert (length (map stored (take k l)) = k) as Hlen
    by (rewrite length_map, length_take; lia).
  rewrite insert_app_r_alt by lia.
  rewrite Hlen, Nat.sub_diag.
  replace (length l - k)%nat with (S (length l - S k)) by lia.
  erewrite take_S_r by eassumption.
  rewrite map_app, <- app_assoc. reflexivity.
Qed.

Lemma slot_zero (l : list string) (k : nat) (tok : string) :
  l !! k = Some tok ->
  (map stored (take k l) ++ replicate (length l - k) Float32.zero) !! k
  = Some Float32.zero.
Proof.
  intros H. pose proof (lookup_lt_Some _ _ _ H) as Hk.
  assert (length (map stored (take k l)) = k) as Hlen
    by (rewrite length_map, length_take; lia).
  rewrite lookup_app_r by lia. rewrite Hlen, Nat.sub_diag.
  replace (length l - k)%nat with (S (length l - S k)) by lia.
  reflexivity.
Qed.

Lemma convert_loop (l : list string) (n : nat) :
  forall (k : nat) (err : list string),
    (k + n <= length l)%nat ->
    fold_left (convert_token l) (seq k n)
      (map stored (take k l) ++ replicate (length l - k) Float32.zero, err)
    = (map stored (take (k + n) l)
         ++ replicate (length l - (k + n)) Float32.zero,
       err ++ concat (map diagnostic (take n (drop k l)))).
Proof.
  induction n as [|n IH]; intros k err Hk; simpl.
  - rewrite Nat.add_0_r, app_nil_r. reflexivity.
  - destruct (lookup_lt_is_Some_2 l k ltac:(lia)) as [tok Htok].
    rewrite Htok.
    pose proof (slot_fill l k tok Htok) as Hfill.
    pose proof (slot_zero l k tok Htok) as Hzero.
    erewrite (drop_S l tok k) by eassumption. simpl.
    replace (k + S n)%nat with (S k + n)%nat by lia.
    unfold stored in Hfill at 1.
    assert (diagnostic tok = match IStream.extract tok with
                             | IStream.Extracted _ => []
                             | _ => [msg_float]
                             end) as Hd by reflexivity.
    destruct (IStream.extract tok) as [v| |v]; rewrite Hd.
    + rewrite Hfill, IH by lia. reflexivity.
    + rewrite list_insert_id in Hfill by exact Hzero.
      rewrite Hfill, IH by lia. rewrite <- app_assoc. reflexivity.
    + rewrite Hfill, IH by lia. rewrite <- app_assoc. reflexivity.
Qed.

(** The loop computes, slot by slot, what [stored] says. *)
Lemma str_vec_to_float_vec_eq (str_vec : list string) :
  str_vec_to_float_vec str_vec
  = (map stored str_vec, concat (map diagnostic str_vec)).
Proof.
  unfold str_vec_to_float_vec.
  pose proof (convert_loop str_vec (length str_vec) 0 [] ltac:(lia)) as H.
  simpl in H. rewrite Nat.sub_0_r in H. rewrite H.
  rewrite Nat.sub_diag, drop_0, !firstn_all. simpl. rewrite app_nil_r.
  reflexivity.
Qed.

Lemma stored_not_nan tok : Float32.is_nan (stored tok) = false.
Proof.
  unfold stored. destruct (IStream.extract tok) as [v| |v] eqn:E;
    try reflexivity; apply (IStreamFacts.extract_not_nan tok); auto.
Qed.

(** ** The loops over the matrix *)

Section Loops.
Variable myMat : StringMatrix.
Variable cfg : Config.
Variable record0 : Z.

Local Abbreviation fill := (filled myMat cfg record0).
Local Abbreviation value := (cell_value myMat cfg record0).
Local Abbreviation step := (cell_step myMat cfg record0).

Lemma filled_weaken (D D' : nat -> nat -> Prop) st :
  (forall a b, (a < s_nrow myMat)%nat -> (b < s_ncol myMat)%nat ->
               D' a b -> D a b) ->
  fill D st -> fill D' st.
Proof.
  intros HD (H1 & H2 & H3 & H4 & H5). repeat split; auto.
Qed.

Lemma offset_inj (n a b i j : nat) :
  (a < n)%nat -> (i < n)%nat -> (a + b * n = i + j * n)%nat ->
  a = i /\ b = j.
Proof.
  intros Ha Hi H.
  assert (b = j) as -> by nia. split; [lia|reflexivity].
Qed.

Lemma cell_step_next D i j st st' :
  (i < s_nrow myMat)%nat -> (j < s_ncol myMat)%nat ->
  fill D st -> step i j st = Next st' ->
  fill (fun a b => D a b \/ (a = i /\ b = j)) st' /\
  value i j <> None /\
  value i j = n_at (retMat st') i j.
Proof.
  intros Hi Hj (H1 & H2 & H3 & H4 & H5) Hstep.
  unfold cell_step in Hstep. unfold cell_value.
  destruct (reduce_cell cfg record0 (s_at myMat i j)) as [[v|] err] eqn:E;
    [|discriminate].
  inversion Hstep; subst st'; clear Hstep. simpl.
  assert (n_at (n_set (retMat st) i j v) i j = Some v) as Hv.
  { unfold n_at, n_set; simpl. apply list_lookup_insert_eq.
    rewrite H4, H1. nia. }
  split; [|split; [discriminate|symmetry; exact Hv]].
  repeat split; simpl; auto.
  - rewrite length_insert. exact H4.
  - intros a b Hab Ha Hb.
    destruct (decide (a + b * s_nrow myMat = i + j * s_nrow myMat)%nat)
      as [Heq|Hne].
    + apply offset_inj in Heq as [-> ->]; [|assumption..].
      rewrite Hv. unfold cell_value. rewrite E. reflexivity.
    + destruct Hab as [Hab|[-> ->]]; [|congruence].
      rewrite <- (H5 a b Hab Ha Hb).
      unfold n_at, n_set; simpl. rewrite H1.
      apply list_lookup_insert_ne. congruence.
Qed.

Lemma cell_step_exit i j st st' :
  step i j st = Exit st' -> value i j = None.
Proof.
  unfold cell_step, cell_value.
  destruct (reduce_cell cfg record0 (s_at myMat i j)) as [[v|] err];
    [discriminate|reflexivity].
Qed.

Lemma inner_loop i (Hi : (i < s_nrow myMat)%nat) :
  forall js D st,
    (forall j, In j js -> (j < s_ncol myMat)%nat) ->
    fill D st ->
    match for_each (step i) js st with
    | Next st' =>
        fill (fun a b => D a b \/ (a = i /\ In b js)) st' /\
        forall j, In j js -> value i j <> None
    | Exit _ => exists j, In j js /\ value i j = None
    end.
Proof.
  induction js as [|j js IH]; intros D st Hjs Hst; simpl.
  - split; [|tauto]. eapply filled_weaken; [|exact Hst]. tauto.
  - destruct (step i j st) as [st1|st1] eqn:E.
    + destruct (cell_step_next D i j st st1) as (F & N & _);
        [auto using in_eq..|].
      specialize (IH _ st1 (fun b Hb => Hjs b (in_cons _ _ _ Hb)) F).
      destruct (for_each (step i) js st1) as [st'|st'].
      * destruct IH as [F' N']. split.
        -- eapply filled_weaken; [|exact F']. simpl. intuition (subst; auto).
        -- intros b [<-|Hb]; auto.
      * destruct IH as (b & Hb & Nb). exists b. auto using in_cons.
    + exists j. split; [apply in_eq|]. eapply cell_step_exit, E.
Qed.

Lemma outer_loop js (Hjs : forall j, In j js -> (j < s_ncol myMat)%nat) :
  forall rows D st,
    (forall i, In i rows -> (i < s_nrow myMat)%nat) ->
    fill D st ->
    match for_each (fun i => for_each (step i) js) rows st with
    | Next st' =>
        fill (fun a b => D a b \/ (In a rows /\ In b js)) st' /\
        forall i j, In i rows -> In j js -> value i j <> None
    | Exit _ =>
        exists i j, In i rows /\ In j js /\ value i j = None
    end.
Proof.
  induction rows as [|i rows IH]; intros D st Hrows Hst; simpl.
  - split; [|tauto]. eapply filled_weaken; [|exact Hst]. tauto.
  - pose proof (inner_loop i (Hrows i (in_eq _ _)) js D st Hjs Hst) as HI.
    destruct (for_each (step i) js st) as [st1|st1].
    + destruct HI as [F N].
      specialize (IH _ st1 (fun a Ha => Hrows a (in_cons _ _ _ Ha)) F).
      destruct (for_each _ rows st1) as [st'|st'].
      * destruct IH as [F' N']. split.
        -- eapply filled_weaken; [|exact F']. simpl. intuition (subst; auto).
        -- intros a b [<-|Ha] Hb; auto.
      * destruct IH as (a & b & Ha & Hb & Nab).
        exists a, b. auto using in_cons.
    + destruct HI as (b & Hb & Nb). exists i, b. auto using in_eq.
Qed.

Lemma initial_filled : fill (fun _ _ => False) (initial myMat).
Proof.
  repeat split; simpl; auto.
  - apply length_replicate.
  - tauto.
Qed.

(** The loops either fill every element or leave at an element whose
    body returns. *)
Lemma cell_loops_spec :
  match cell_loops myMat cfg record0 (initial myMat) with
  | Next st' =>
      fill (fun _ _ => True) st' /\
      forall i j, (i < s_nrow myMat)%nat -> (j < s_ncol myMat)%nat ->
                  value i j <> None
  | Exit _ =>
      exists i j, (i < s_nrow myMat)%nat /\ (j < s_ncol myMat)%nat /\
                  value i j = None
  end.
Proof.
  unfold cell_loops. simpl.
  pose proof (outer_loop (seq 0 (s_ncol myMat))
                (fun j Hj => proj2 (proj1 (in_seq _ _ _) Hj))
                (seq 0 (s_nrow myMat)) _ (initial myMat)
                (fun i Hi => proj2 (proj1 (in_seq _ _ _) Hi))
                initial_filled) as H.
  destruct (for_each _ (seq 0 (s_nrow myMat)) (initial myMat)) as [st'|st'].
  - destruct H as [F N]. split.
    + eapply filled_weaken; [|exact F]. simpl. intros a b.
      intros Ha Hb _. right. rewrite !in_seq. lia.
    + intros i j Hi Hj. apply N; apply in_seq; lia.
  - destruct H as (i & j & Hi & Hj & N). apply in_seq in Hi, Hj.
    exists i, j. repeat split; [lia..|exact N].
Qed.
End Loops.

(** ** The function as a whole *)

Lemma split_from_length s d cur :
  length (vcfRCommon.split_from s d cur) = S (occurrences d s).
Proof.
  revert cur. induction s as [|c s IH]; intros cur; simpl; [reflexivity|].
  destruct (Ascii.eqb c d); simpl; rewrite IH; reflexivity.
Qed.

Lemma reduce_cell_None cfg record0 c :
  (reduce_cell cfg record0 c).1 = None <->
  c <> NA_STRING /\ count cfg <> 1 /\ sort cfg = 1 /\
  decreasing cfg <> 1 /\ decreasing cfg <> 0.
Proof.
  unfold reduce_cell, sort_records. destruct c as [|s].
  - simpl. split; [discriminate|]. intros [H _]. congruence.
  - destruct (str_vec_to_float_vec _) as [float_vec err].
    destruct (Z.eqb_spec (count cfg) 1), (Z.eqb_spec (sort cfg) 1),
      (Z.eqb_spec (decreasing cfg) 1), (Z.eqb_spec (decreasing cfg) 0);
      simpl; split; try discriminate; try tauto; intros; repeat split;
      try assumption; try discriminate; try lia.
Qed.

Lemma reduce_cell_count cfg record0 s :
  count cfg = 1 ->
  (reduce_cell cfg record0 (mkChar s)).1
  = Some (Real (Float64.of_size (length (parsed cfg s)))).
Proof.
  intros H. unfold reduce_cell, parsed.
  destruct (str_vec_to_float_vec _) as [float_vec err].
  rewrite H. reflexivity.
Qed.

Lemma reduce_cell_select cfg record0 s float_vec :
  count cfg <> 1 -> sort_records cfg (parsed cfg s) = Some float_vec ->
  (reduce_cell cfg record0 (mkChar s)).1
  = Some (select_record record0 float_vec).
Proof.
  intros H Hs. unfold reduce_cell, parsed in *.
  destruct (str_vec_to_float_vec _) as [fv err]. simpl in Hs.
  destruct (Z.eqb_spec (count cfg) 1); [contradiction|].
  rewrite Hs. reflexivity.
Qed.

Lemma parsed_eq cfg s :
  parsed cfg s
  = map stored (vcfRCommon.split_from s (first_char (delim cfg)) EmptyString).
Proof.
  unfold parsed. rewrite str_vec_to_float_vec_eq. reflexivity.
Qed.

(** [masplit] leaves through one of its three return statements. *)
Lemma masplit_run_record myMat cfg :
  record cfg < 1 ->
  masplit_run myMat cfg
  = ReturnNaMat {| retMat := retMat (initial myMat); Rcerr := [msg_record] |}.
Proof.
  intros H. unfold masplit_run.
  destruct (Z.ltb_spec (record cfg) 1); [reflexivity|lia].
Qed.

Lemma masplit_run_retMat myMat cfg st :
  masplit_run myMat cfg = ReturnRetMat st ->
  1 <= record cfg /\
  filled myMat cfg (record cfg - 1) (fun _ _ => True) st /\
  forall i j, (i < s_nrow myMat)%nat -> (j < s_ncol myMat)%nat ->
              cell_value myMat cfg (record cfg - 1) i j <> None.
Proof.
  unfold masplit_run.
  destruct (Z.ltb_spec (record cfg) 1); [discriminate|].
  pose proof (cell_loops_spec myMat cfg (record cfg - 1)) as H'.
  unfold initial in H'.
  destruct (cell_loops _ _ _ _) as [st'|st']; [|discriminate].
  intros E; inversion E; subst. split; [lia|exact H'].
Qed.

Lemma masplit_run_naMat myMat cfg st :
  masplit_run myMat cfg = ReturnNaMat st ->
  record cfg < 1 \/
  exists i j, (i < s_nrow myMat)%nat /\ (j < s_ncol myMat)%nat /\
              cell_value myMat cfg (record cfg - 1) i j = None.
Proof.
  unfold masplit_run.
  destruct (Z.ltb_spec (record cfg) 1); [left; assumption|].
  pose proof (cell_loops_spec myMat cfg (record cfg - 1)) as H'.
  unfold initial in H'.
  destruct (cell_loops _ _ _ _) as [st'|st']; [discriminate|].
  intros _. right. exact H'.
Qed.

(** With [record] at least one, the call completes when no element makes
    the body return. *)
Lemma masplit_run_completes myMat cfg :
  1 <= record cfg ->
  (forall i j, (i < s_nrow myMat)%nat -> (j < s_ncol myMat)%nat ->
               cell_value myMat cfg (record cfg - 1) i j <> None) ->
  exists st, masplit_run myMat cfg = ReturnRetMat st.
Proof.
  intros Hr Hc.
  destruct (masplit_run myMat cfg) as [st|st] eqn:E; [|eauto].
  apply masplit_run_naMat in E as [E|(i & j & Hi & Hj & E)]; [lia|].
  destruct (Hc i j Hi Hj E).
Qed.

Lemma masplit_retMat myMat cfg st :
  masplit_run myMat cfg = ReturnRetMat st -> masplit myMat cfg = retMat st.
Proof. unfold masplit. intros ->. reflexivity. Qed.

Lemma masplit_naMat myMat cfg st :
  masplit_run myMat cfg = ReturnNaMat st -> masplit myMat cfg = naMat.
Proof. unfold masplit. intros ->. reflexivity. Qed.

(** On completion every element of the result is the value of its cell. *)
Lemma masplit_run_at myMat cfg st i j :
  masplit_run myMat cfg = ReturnRetMat st ->
  (i < s_nrow myMat)%nat -> (j < s_ncol myMat)%nat ->
  n_at (masplit myMat cfg) i j
  = (reduce_cell cfg (record cfg - 1) (s_at myMat i j)).1.
Proof.
  intros E Hi Hj. rewrite (masplit_retMat _ _ _ E).
  apply masplit_run_retMat in E as (_ & (_ & _ & _ & _ & F) & _).
  apply F; auto.
Qed.

(** ** Configuration errors *)

Lemma sort_records_Some cfg l l' :
  sort_records cfg l = Some l' ->
  ~ (sort cfg = 1 /\ decreasing cfg <> 1 /\ decreasing cfg <> 0).
Proof.
  unfold sort_records.
  destruct (Z.eqb_spec (sort cfg) 1), (Z.eqb_spec (decreasing cfg) 1),
    (Z.eqb_spec (decreasing cfg) 0); try discriminate; tauto.
Qed.

(** C7: when [record] is zero or negative, [masplit] returns the 1x1
    matrix holding [NA_REAL] before the loops start: at the return
    [retMat] is still the zero-filled matrix it was constructed as, and
    the only diagnostic is the one about the record number, whatever
    [count], [sort] and [decreasing] are. *)
Theorem C7_record_below_one (myMat : StringMatrix) (cfg : Config) :
  record cfg < 1 ->
  masplit myMat cfg = naMat /\
  n_nrow naMat = 1%nat /\ n_ncol naMat = 1%nat /\ n_data naMat = [NA_REAL] /\
  masplit_run myMat cfg
  = ReturnNaMat
      {| retMat := set_dimnames
                     (new_NumericMatrix (s_nrow myMat) (s_ncol myMat))
                     (s_dimnames myMat);
         Rcerr := [msg_record] |}.
Proof.
  intros H. pose proof (masplit_run_record myMat cfg H) as E.
  split; [exact (masplit_naMat _ _ _ E)|].
  repeat split. exact E.
Qed.

Lemma C7_witness :
  masplit sample (with_record 0 default_Config) = naMat /\
  masplit sample (with_count 1 (with_record (-3) default_Config)) = naMat.
Proof.
  split.
  - apply (C7_record_below_one sample (with_record 0 default_Config)).
    reflexivity.
  - apply (C7_record_below_one sample
             (with_count 1 (with_record (-3) default_Config))).
    reflexivity.
Defined.

(** C1, as amended: with [decreasing] neither 0 nor 1 and [record] at
    least one, [masplit] returns the 1x1 [naMat] exactly when it is not
    counting, [sort] is 1 and the matrix has an element that is not
    missing; the test sits in the sorting branch of the loop body.  In the
    other cases (counting, no sorting, or every element missing)
    [decreasing] is never looked at and the full matrix is returned. *)
Theorem C1_decreasing_checked_in_sort_branch
    (myMat : StringMatrix) (cfg : Config) :
  decreasing cfg <> 0 -> decreasing cfg <> 1 -> 1 <= record cfg ->
  ((exists st, masplit_run myMat cfg = ReturnNaMat st) <->
   (count cfg <> 1 /\ sort cfg = 1 /\
    exists i j, (i < s_nrow myMat)%nat /\ (j < s_ncol myMat)%nat /\
                s_at myMat i j <> NA_STRING)) /\
  (count cfg = 1 \/ sort cfg <> 1 \/
   (forall i j, (i < s_nrow myMat)%nat -> (j < s_ncol myMat)%nat ->
                s_at myMat i j = NA_STRING) ->
   exists st, masplit_run myMat cfg = ReturnRetMat st /\
              masplit myMat cfg = retMat st /\
              n_nrow (retMat st) = s_nrow myMat /\
              n_ncol (retMat st) = s_ncol myMat).
Proof.
  intros D0 D1 Hr.
  assert ((exists st, masplit_run myMat cfg = ReturnNaMat st) <->
          (count cfg <> 1 /\ sort cfg = 1 /\
           exists i j, (i < s_nrow myMat)%nat /\ (j < s_ncol myMat)%nat /\
                       s_at myMat i j <> NA_STRING)) as Hiff.
  { split.
    - intros [st E].
      apply masplit_run_naMat in E as [E|(i & j & Hi & Hj & E)]; [lia|].
      apply reduce_cell_None in E as (Hc & Hn & Hs & _).
      eauto 10.
    - intros (Hn & Hs & i & j & Hi & Hj & Hc).
      destruct (masplit_run myMat cfg) as [st|st] eqn:E; [eauto|].
      apply masplit_run_retMat in E as (_ & _ & N).
      destruct (N i j Hi Hj). apply reduce_cell_None. auto. }
  split; [exact Hiff|].
  intros Hcase.
  destruct (masplit_run myMat cfg) as [st|st] eqn:E.
  - destruct Hiff as [Hiff _].
    destruct (Hiff (ex_intro _ st eq_refl))
      as (Hn & Hs & i & j & Hi & Hj & Hc).
    destruct Hcase as [?|[?|Hall]]; [contradiction..|].
    destruct (Hc (Hall i j Hi Hj)).
  - exists st. split; [reflexivity|].
    split; [unfold masplit; rewrite E; reflexivity|].
    apply masplit_run_retMat in E as (_ & (F1 & F2 & _) & _). auto.
Qed.

Lemma C1_witness :
  (exists st, masplit_run sample (with_decreasing 2 default_Config)
              = ReturnNaMat st) /\
  (exists st, masplit_run sample
                (with_count 1 (with_decreasing 2 default_Config))
              = ReturnRetMat st).
Proof.
  split.
  - apply (C1_decreasing_checked_in_sort_branch sample
             (with_decreasing 2 default_Config));
      [discriminate..|].
    split; [discriminate|]. split; [reflexivity|].
    exists 0%nat, 0%nat. repeat split; [simpl; lia..|discriminate].
  - destruct (C1_decreasing_checked_in_sort_branch sample
                (with_count 1 (with_decreasing 2 default_Config)))
      as [_ H]; [discriminate..|].
    destruct H as (st & E & _); [left; reflexivity|].
    exists st. exact E.
Defined.

(** C1, as stated, fails: in count mode a [decreasing] of 2 is not
    diagnosed and the 2x2 result is returned. *)
Lemma C1_counterexample :
  ~ (forall (myMat : StringMatrix) (cfg : Config),
        decreasing cfg <> 0 -> decreasing cfg <> 1 ->
        masplit myMat cfg = naMat).
Proof.
  intros H.
  specialize (H sample (with_count 1 (with_decreasing 2 default_Config))).
  vm_compute in H.
  assert (2 = 0 -> False) as A by discriminate.
  assert (2 = 1 -> False) as B by discriminate.
  specialize (H A B). discriminate H.
Qed.

(** ** Missing cells *)

(** C3: whenever [masplit] returns the full matrix, every element of
    [myMat] that is [NA_STRING] is [NA_REAL] in the result, whatever
    [count], [sort] and [decreasing] are; the loop body neither parses nor
    reports anything for such an element. *)
Theorem C3_missing_in_missing_out
    (myMat : StringMatrix) (cfg : Config) (st : state) (i j : nat) :
  masplit_run myMat cfg = ReturnRetMat st ->
  (i < s_nrow myMat)%nat -> (j < s_ncol myMat)%nat ->
  s_at myMat i j = NA_STRING ->
  n_at (masplit myMat cfg) i j = Some NA_REAL /\
  reduce_cell cfg (record cfg - 1) (s_at myMat i j) = (Some NA_REAL, []).
Proof.
  intros E Hi Hj Hna.
  rewrite (masplit_run_at myMat cfg st i j E Hi Hj), Hna.
  split; reflexivity.
Qed.

Lemma C3_witness :
  n_at (masplit sample default_Config) 1 0 = Some NA_REAL /\
  reduce_cell default_Config (record default_Config - 1) (s_at sample 1 0)
  = (Some NA_REAL, []).
Proof.
  apply (C3_missing_in_missing_out sample default_Config
           (locals (masplit_run sample default_Config)) 1 0).
  - vm_compute. reflexivity.
  - simpl. lia.
  - simpl. lia.
  - reflexivity.
Defined.

(** ** Count mode *)

(** C4: with [count] equal to 1 and [record] at least one, the result for
    an element that is not missing is the number of tokens into which the
    splitter cuts its text on [delim[0]], which is one more than the number
    of delimiters in the text (empty tokens are kept); [sort], [decreasing]
    and [record] play no part. *)
Theorem C4_count_is_token_count
    (myMat : StringMatrix) (cfg : Config) (i j : nat) (s : string) :
  count cfg = 1 -> 1 <= record cfg ->
  (i < s_nrow myMat)%nat -> (j < s_ncol myMat)%nat ->
  s_at myMat i j = mkChar s ->
  let tokens := vcfRCommon.strsplit s [] (first_char (delim cfg)) in
  n_at (masplit myMat cfg) i j
  = Some (Real (Float64.of_size (length tokens))) /\
  length tokens = S (occurrences (first_char (delim cfg)) s).
Proof.
  intros Hc Hr Hi Hj Hs tokens.
  destruct (masplit_run_completes myMat cfg Hr) as [st E].
  { intros a b _ _ N. apply reduce_cell_None in N. tauto. }
  rewrite (masplit_run_at myMat cfg st i j E Hi Hj), Hs.
  rewrite (reduce_cell_count cfg _ s Hc), parsed_eq, length_map.
  split; [reflexivity|]. apply split_from_length.
Qed.

Lemma C4_witness :
  n_at (masplit sample
          (with_count 1 (with_sort 0 (with_decreasing 5 default_Config))))
       1 1
  = Some (Real (Float64.of_size 3)).
Proof.
  apply (C4_count_is_token_count sample
           (with_count 1 (with_sort 0 (with_decreasing 5 default_Config)))
           1 1 "a,,3.5").
  - reflexivity.
  - simpl. lia.
  - simpl. lia.
  - simpl. lia.
  - reflexivity.
Defined.

(** ** Tokens whose extraction fails *)






(** ** Select mode *)

Lemma parsed_not_nan cfg s :
  Forall (fun x => Float32.is_nan x = false) (parsed cfg s).
Proof.
  rewrite parsed_eq. apply Forall_forall. intros x Hx.
  apply list_elem_of_In, in_map_iff in Hx as (tok & <- & _).
  apply stored_not_nan.
Qed.

Lemma greater_asym a b : greater a b = true -> greater b a = false.
Proof. apply Float32Facts.lt_asym. Qed.

Lemma greater_negtrans a b c :
  Float32.is_nan a = false -> Float32.is_nan b = false ->
  Float32.is_nan c = false ->
  greater a b = false -> greater b c = false -> greater a c = false.
Proof.
  intros Ha Hb Hc H1 H2. unfold greater, Float32.gt in *.
  apply (Float32Facts.lt_negtrans c b a); assumption.
Qed.

Lemma lesser_asym a b : lesser a b = true -> lesser b a = false.
Proof. apply Float32Facts.lt_asym. Qed.

Lemma lesser_negtrans a b c :
  Float32.is_nan a = false -> Float32.is_nan b = false ->
  Float32.is_nan c = false ->
  lesser a b = false -> lesser b c = false -> lesser a c = false.
Proof. apply Float32Facts.lt_negtrans. Qed.

(** C5: in select mode with [sort] equal to 1 the sequence from which the
    record is taken is a rearrangement of the parsed sequence in which,
    for [decreasing] 1, every element is greater than or equal to all that
    follow it and, for [decreasing] 0, less than or equal to them.  On the
    cell "7,2,12": decreasing order and record 1 give 12; increasing order
    and record 3 give 12. *)
Theorem C5_sorted_before_selection :
  (forall (cfg : Config) (record0 : Z) (s : string),
      count cfg <> 1 -> sort cfg = 1 ->
      decreasing cfg = 1 \/ decreasing cfg = 0 ->
      exists float_vec,
        sort_records cfg (parsed cfg s) = Some float_vec /\
        float_vec ≡ₚ parsed cfg s /\
        (reduce_cell cfg record0 (mkChar s)).1
        = Some (select_record record0 float_vec) /\
        forall (p q : nat) (a b : Float32.float),
          (p < q)%nat -> float_vec !! p = Some a -> float_vec !! q = Some b ->
          if decreasing cfg =? 1 then Float32.ge a b = true
          else Float32.le a b = true) /\
  masplit (single (mkChar "7,2,12"))
    {| delim := ","; count := 0; record := 1; sort := 1; decreasing := 1 |}
  = n_set (new_NumericMatrix 1 1) 0 0 (Real twelve) /\
  masplit (single (mkChar "7,2,12"))
    {| delim := ","; count := 0; record := 3; sort := 1; decreasing := 0 |}
  = n_set (new_NumericMatrix 1 1) 0 0 (Real twelve).
Proof.
  split; [|split; vm_compute; reflexivity].
  intros cfg record0 s Hc Hs Hd.
  pose proof (parsed_not_nan cfg s) as Hnan.
  assert (forall comp, Forall (fun x => Float32.is_nan x = false)
                              (std_sort comp (parsed cfg s))) as Hnan'.
  { intros comp. rewrite std_sort_perm. exact Hnan. }
  destruct Hd as [Hd|Hd].
  - exists (std_sort greater (parsed cfg s)).
    assert (sort_records cfg (parsed cfg s)
            = Some (std_sort greater (parsed cfg s))) as E
      by (unfold sort_records; rewrite Hs, Hd; reflexivity).
    split; [exact E|]. split; [apply std_sort_perm|].
    split; [apply reduce_cell_select; assumption|].
    intros p q a b Hpq Ha Hb. rewrite Hd. simpl.
    specialize (Hnan' greater). rewrite Forall_lookup in Hnan'.
    apply Float32Facts.not_lt_ge; [eauto..|].
    apply (ordered_lookup greater (std_sort greater (parsed cfg s)) p q a b);
      try assumption.
    apply (std_sort_ordered greater (fun x => Float32.is_nan x = false)
             greater_asym greater_negtrans).
    exact Hnan.
  - exists (std_sort lesser (parsed cfg s)).
    assert (sort_records cfg (parsed cfg s)
            = Some (std_sort lesser (parsed cfg s))) as E
      by (unfold sort_records; rewrite Hs, Hd; reflexivity).
    split; [exact E|]. split; [apply std_sort_perm|].
    split; [apply reduce_cell_select; assumption|].
    intros p q a b Hpq Ha Hb. rewrite Hd. simpl.
    specialize (Hnan' lesser). rewrite Forall_lookup in Hnan'.
    change (Float32.ge b a = true).
    apply Float32Facts.not_lt_ge; [eauto..|].
    apply (ordered_lookup lesser (std_sort lesser (parsed cfg s)) p q a b);
      try assumption.
    apply (std_sort_ordered lesser (fun x => Float32.is_nan x = false)
             lesser_asym lesser_negtrans).
    exact Hnan.
Qed.

Lemma C5_witness :
  exists float_vec,
    sort_records default_Config (parsed default_Config "7,2,12")
    = Some float_vec /\
    float_vec ≡ₚ parsed default_Config "7,2,12" /\
    (reduce_cell default_Config 0 (mkChar "7,2,12")).1
    = Some (select_record 0 float_vec) /\
    forall (p q : nat) (a b : Float32.float),
      (p < q)%nat -> float_vec !! p = Some a -> float_vec !! q = Some b ->
      if decreasing default_Config =? 1 then Float32.ge a b = true
      else Float32.le a b = true.
Proof.
  apply (proj1 C5_sorted_before_selection default_Config 0 "7,2,12"%string).
  - discriminate.
  - reflexivity.
  - left. reflexivity.
Defined.

(** C6: in select mode, for an element that is not missing, when the
    sequence left by the sorting step has fewer entries than [record] the
    result is [NA_REAL], and otherwise it is the entry at zero-based
    position [record - 1]; in both cases [masplit] returns the full
    matrix. *)
Theorem C6_record_selection
    (myMat : StringMatrix) (cfg : Config) (i j : nat) (s : string)
    (float_vec : list Float32.float) :
  count cfg <> 1 -> 1 <= record cfg ->
  (i < s_nrow myMat)%nat -> (j < s_ncol myMat)%nat ->
  s_at myMat i j = mkChar s ->
  sort_records cfg (parsed cfg s) = Some float_vec ->
  (exists st, masplit_run myMat cfg = ReturnRetMat st) /\
  (Z.of_nat (length float_vec) < record cfg ->
   n_at (masplit myMat cfg) i j = Some NA_REAL) /\
  (record cfg <= Z.of_nat (length float_vec) ->
   exists f, float_vec !! Z.to_nat (record cfg - 1) = Some f /\
             n_at (masplit myMat cfg) i j
             = Some (Real (Float64.of_float f))).
Proof.
  intros Hc Hr Hi Hj Hs Hsort.
  destruct (masplit_run_completes myMat cfg Hr) as [st E].
  { intros a b _ _ N. apply reduce_cell_None in N.
    apply (sort_records_Some _ _ _ Hsort). tauto. }
  rewrite (masplit_run_at myMat cfg st i j E Hi Hj), Hs.
  rewrite (reduce_cell_select cfg _ s float_vec Hc Hsort).
  unfold select_record.
  split; [eauto|]. split; intros Hlen.
  - destruct (Z.ltb_spec (Z.of_nat (length float_vec)) (record cfg - 1 + 1));
      [reflexivity|lia].
  - destruct (Z.ltb_spec (Z.of_nat (length float_vec)) (record cfg - 1 + 1));
      [lia|].
    destruct (lookup_lt_is_Some_2 float_vec (Z.to_nat (record cfg - 1)))
      as [f Hf]; [lia|].
    exists f. rewrite Hf. split; reflexivity.
Qed.

Lemma C6_witness :
  (exists st, masplit_run sample (with_record 2 default_Config)
              = ReturnRetMat st) /\
  (Z.of_nat (length (std_sort greater (parsed default_Config "9")))
   < record (with_record 2 default_Config) ->
   n_at (masplit sample (with_record 2 default_Config)) 0 1 = Some NA_REAL) /\
  (record (with_record 2 default_Config)
   <= Z.of_nat (length (std_sort greater (parsed default_Config "9"))) ->
   exists f,
     std_sort greater (parsed default_Config "9")
       !! Z.to_nat (record (with_record 2 default_Config) - 1) = Some f /\
     n_at (masplit sample (with_record 2 default_Config)) 0 1
     = Some (Real (Float64.of_float f))).
Proof.
  apply (C6_record_selection sample (with_record 2 default_Config) 0 1 "9"
           (std_sort greater (parsed default_Config "9"))).
  - discriminate.
  - simpl. lia.
  - simpl. lia.
  - simpl. lia.
  - reflexivity.
  - reflexivity.
Defined.

(** ** Shape of the result *)

(** C8: when the value of [masplit] is not [naMat], it has the rows and
    columns of [myMat], its vector has [nrow * ncol] elements, and every
    position holds the value the loop body assigns for the element of
    [myMat] at that position. *)
Theorem C8_full_shape (myMat : StringMatrix) (cfg : Config) :
  masplit myMat cfg <> naMat ->
  n_nrow (masplit myMat cfg) = s_nrow myMat /\
  n_ncol (masplit myMat cfg) = s_ncol myMat /\
  length (n_data (masplit myMat cfg)) = (s_nrow myMat * s_ncol myMat)%nat /\
  forall i j, (i < s_nrow myMat)%nat -> (j < s_ncol myMat)%nat ->
    exists v, n_at (masplit myMat cfg) i j = Some v /\
              (reduce_cell cfg (record cfg - 1) (s_at myMat i j)).1 = Some v.
Proof.
  intros Hne.
  destruct (masplit_run myMat cfg) as [st|st] eqn:E.
  - destruct Hne. exact (masplit_naMat _ _ _ E).
  - rewrite (masplit_retMat _ _ _ E).
    pose proof (masplit_run_retMat _ _ _ E)
      as (_ & (F1 & F2 & _ & F4 & F5) & N).
    repeat split; try assumption.
    intros i j Hi Hj. specialize (N i j Hi Hj).
    rewrite (F5 i j I Hi Hj). unfold cell_value in *.
    destruct (reduce_cell cfg (record cfg - 1) (s_at myMat i j)).1 as [v|];
      [eauto|contradiction].
Qed.

Lemma C8_witness :
  n_nrow (masplit sample default_Config) = s_nrow sample /\
  n_ncol (masplit sample default_Config) = s_ncol sample /\
  length (n_data (masplit sample default_Config))
  = (s_nrow sample * s_ncol sample)%nat /\
  forall i j, (i < s_nrow sample)%nat -> (j < s_ncol sample)%nat ->
    exists v, n_at (masplit sample default_Config) i j = Some v /\
              (reduce_cell default_Config (record default_Config - 1)
                 (s_at sample i j)).1 = Some v.
Proof.
  apply (C8_full_shape sample default_Config).
  vm_compute. discriminate.
Defined.

(** ** The sentinel *)

(** C9, as amended: the matrix returned by a completed call equals the
    1x1 [naMat] exactly when [myMat] has one row and one column, carries
    no [dimnames], and its only element yields [NA_REAL]; in every other
    case the two differ. *)
Theorem C9_sentinel_coincidence
    (myMat : StringMatrix) (cfg : Config) (st : state) :
  masplit_run myMat cfg = ReturnRetMat st ->
  (masplit myMat cfg = naMat <->
   s_nrow myMat = 1%nat /\ s_ncol myMat = 1%nat /\
   s_dimnames myMat = None /\
   (reduce_cell cfg (record cfg - 1) (s_at myMat 0 0)).1 = Some NA_REAL).
Proof.
  intros E.
  pose proof (masplit_run_at myMat cfg st 0 0 E) as Hat.
  rewrite (masplit_retMat _ _ _ E) in *.
  pose proof (masplit_run_retMat _ _ _ E) as (_ & (F1 & F2 & F3 & F4 & _) & _).
  split.
  - intros Heq. rewrite Heq in *. simpl in *.
    assert (s_nrow myMat = 1%nat) as R by auto.
    assert (s_ncol myMat = 1%nat) as C by auto.
    repeat split; auto.
    rewrite <- Hat by lia. reflexivity.
  - intros (R & C & Dn & V).
    rewrite <- Hat in V by lia.
    destruct (retMat st) as [nr nc data dn]. simpl in *.
    unfold n_at in V; simpl in V.
    rewrite R, C in *. subst nr nc. rewrite Dn in F3. subst dn.
    destruct data as [|x [|y data]]; simpl in *; try discriminate.
    inversion V; subst. reflexivity.
Qed.

Lemma C9_witness :
  masplit sample default_Config = naMat <->
  s_nrow sample = 1%nat /\ s_ncol sample = 1%nat /\
  s_dimnames sample = None /\
  (reduce_cell default_Config (record default_Config - 1)
     (s_at sample 0 0)).1 = Some NA_REAL.
Proof.
  apply (C9_sentinel_coincidence sample default_Config
           (locals (masplit_run sample default_Config))).
  vm_compute. reflexivity.
Defined.

(** C9, as stated, fails: a 1x1 matrix whose only element is missing is
    processed to the end under the default configuration, and the result
    is equal to [naMat]. *)
Lemma C9_counterexample :
  ~ (forall (myMat : StringMatrix) (cfg : Config) (st : state),
        1 <= record cfg -> decreasing cfg = 0 \/ decreasing cfg = 1 ->
        masplit_run myMat cfg = ReturnRetMat st ->
        masplit myMat cfg <> naMat).
Proof.
  intros H.
  apply (H (single NA_STRING) default_Config
           (locals (masplit_run (single NA_STRING) default_Config))).
  - simpl. lia.
  - right. reflexivity.
  - reflexivity.
  - reflexivity.
Qed.

(** ** The delimiter *)

(** C10: of a non-empty [delim] only the first character is used: two
    calls whose delimiter strings start with the same character, and agree
    otherwise, leave through the same return statement with the same
    matrix and the same diagnostics; in particular each behaves as the
    call with the one-character delimiter. *)
Theorem C10_only_first_delimiter_character
    (myMat : StringMatrix) (c : ascii) (rest1 rest2 : string)
    (cnt rec srt dec : Z) :
  masplit_run myMat {| delim := String c rest1; count := cnt; record := rec;
                       sort := srt; decreasing := dec |}
  = masplit_run myMat {| delim := String c rest2; count := cnt;
                         record := rec; sort := srt; decreasing := dec |} /\
  masplit myMat {| delim := String c rest1; count := cnt; record := rec;
                   sort := srt; decreasing := dec |}
  = masplit myMat {| delim := String c EmptyString; count := cnt;
                     record := rec; sort := srt; decreasing := dec |}.
Proof.
  split; reflexivity.
Qed.

(** * Further properties of the source file *)

(** ** Helper facts *)

Lemma for_each_ext (body1 body2 : nat -> state -> flow) (idx : list nat) :
  (forall i st, body1 i st = body2 i st) ->
  forall st, for_each body1 idx st = for_each body2 idx st.
Proof.
  intros H. induction idx as [|i idx IH]; intros st; simpl; [reflexivity|].
  rewrite H. destruct (body2 i st); auto.
Qed.

Lemma for_each_skip (body : nat -> state -> flow) (idx : list nat) :
  (forall i st, body i st = Next st) ->
  forall st, for_each body idx st = Next st.
Proof.
  intros H. induction idx as [|i idx IH]; intros st; simpl; [reflexivity|].
  rewrite H. apply IH.
Qed.

Lemma for_each_post (Q E : state -> Prop) (body : nat -> state -> flow)
    (idx : list nat) :
  (forall i st, Q st ->
     match body i st with Next st' => Q st' | Exit st' => E st' end) ->
  forall st, Q st ->
    match for_each body idx st with Next st' => Q st' | Exit st' => E st' end.
Proof.
  intros H. induction idx as [|i idx IH]; intros st HQ; simpl; [exact HQ|].
  specialize (H i st HQ).
  destruct (body i st) as [st1|st1]; [apply IH; exact H|exact H].
Qed.

Lemma cell_loops_ext myMat cfg cfg' record0 record0' st :
  (forall c, reduce_cell cfg record0 c = reduce_cell cfg' record0' c) ->
  cell_loops myMat cfg record0 st = cell_loops myMat cfg' record0' st.
Proof.
  intros H. unfold cell_loops.
  apply for_each_ext. intros i st1. apply for_each_ext. intros j st2.
  unfold cell_step. rewrite H. reflexivity.
Qed.

Lemma masplit_run_ext myMat cfg cfg' :
  1 <= record cfg -> 1 <= record cfg' ->
  (forall c, reduce_cell cfg (record cfg - 1) c
             = reduce_cell cfg' (record cfg' - 1) c) ->
  masplit_run myMat cfg = masplit_run myMat cfg'.
Proof.
  intros Hr Hr' H. unfold masplit_run.
  destruct (Z.ltb_spec (record cfg) 1); [lia|].
  destruct (Z.ltb_spec (record cfg') 1); [lia|].
  rewrite (cell_loops_ext myMat cfg cfg' _ _ _ H). reflexivity.
Qed.

Lemma sortable_completes myMat cfg :
  1 <= record cfg -> count cfg = 1 \/ sortable cfg ->
  exists st, masplit_run myMat cfg = ReturnRetMat st.
Proof.
  intros Hr Hv. apply masplit_run_completes; [exact Hr|].
  intros i j _ _ N. apply reduce_cell_None in N.
  unfold sortable in Hv. tauto.
Qed.

Lemma sort_records_sortable cfg l :
  sortable cfg ->
  exists l', sort_records cfg l = Some l' /\ l' ≡ₚ l.
Proof.
  unfold sortable, sort_records. intros Hv.
  destruct (Z.eqb_spec (sort cfg) 1); [|eauto].
  destruct (Z.eqb_spec (decreasing cfg) 1);
    [eexists; split; [reflexivity|apply std_sort_perm]|].
  destruct (Z.eqb_spec (decreasing cfg) 0);
    [eexists; split; [reflexivity|apply std_sort_perm]|].
  tauto.
Qed.

Lemma binary_round_not_nan pr em sx mx ex :
  Float32.is_nan (binary_round pr em sx mx ex) = false.
Proof.
  unfold binary_round. destruct (shl_align _ _ _) as [mz ez].
  apply IStreamFacts.binary_round_aux_not_nan. lia.
Qed.

Lemma of_float_not_nan f :
  Float32.is_nan f = false -> Float32.is_nan (Float64.of_float f) = false.
Proof.
  destruct f; simpl; try tauto. intros _. apply binary_round_not_nan.
Qed.

Lemma of_size_not_nan n : Float32.is_nan (Float64.of_size n) = false.
Proof.
  unfold Float64.of_size, binary_normalize.
  destruct (Z.of_nat n); try reflexivity; apply binary_round_not_nan.
Qed.

Lemma lt_irrefl x : Float32.lt x x = false.
Proof.
  destruct (Float32.lt x x) eqn:E; [|reflexivity].
  pose proof (Float32Facts.lt_asym x x E). congruence.
Qed.

Lemma lt_trans x y z :
  Float32.lt x y = true -> Float32.lt y z = true -> Float32.lt x z = true.
Proof.
  intros H1 H2.
  destruct (Float32.is_nan x) eqn:Hx; [destruct x; discriminate|].
  destruct (Float32.is_nan y) eqn:Hy; [destruct y; discriminate|].
  destruct (Float32.is_nan z) eqn:Hz.
  { destruct z; try discriminate.
    rewrite Float32Facts.lt_nan_r in H2. discriminate. }
  apply Float32Facts.lt_key in H1, H2; [|assumption..].
  apply Float32Facts.lt_key; [assumption..|].
  unfold Float32.key_lt in *. lia.
Qed.

Lemma diagnostics_count (l : list string) :
  concat (map diagnostic l)
  = replicate (length (List.filter failed l)) msg_float.
Proof.
  induction l as [|tok l IH]; simpl; [reflexivity|].
  rewrite IH. unfold diagnostic, failed.
  destruct (IStream.extract tok); reflexivity.
Qed.

Lemma diagnostics_only (l : list string) :
  only_conversion_diagnostics (concat (map diagnostic l)).
Proof.
  rewrite diagnostics_count. apply Forall_replicate. reflexivity.
Qed.

Lemma reduce_cell_log cfg record0 c :
  match reduce_cell cfg record0 c with
  | (Some _, err) => only_conversion_diagnostics err
  | (None, err) =>
      exists pre, only_conversion_diagnostics pre /\
                  err = pre ++ [msg_decreasing]
  end.
Proof.
  unfold reduce_cell. destruct c as [|s]; [constructor|].
  rewrite str_vec_to_float_vec_eq.
  destruct (count cfg =? 1); [apply diagnostics_only|].
  destruct (sort_records cfg _); [apply diagnostics_only|].
  eexists. split; [apply diagnostics_only|reflexivity].
Qed.

Lemma sort_records_perm cfg l l' : sort_records cfg l = Some l' -> l' ≡ₚ l.
Proof.
  unfold sort_records.
  destruct (sort cfg =? 1); [|intros E; inversion E; reflexivity].
  destruct (decreasing cfg =? 1);
    [intros E; inversion E; apply std_sort_perm|].
  destruct (decreasing cfg =? 0);
    [intros E; inversion E; apply std_sort_perm|discriminate].
Qed.

Lemma reduce_cell_not_nan cfg record0 c x :
  (reduce_cell cfg record0 c).1 = Some (Real x) -> Float32.is_nan x = false.
Proof.
  unfold reduce_cell. destruct c as [|s]; [discriminate|].
  rewrite str_vec_to_float_vec_eq.
  destruct (count cfg =? 1).
  { simpl. intros E; inversion E. apply of_size_not_nan. }
  destruct (sort_records cfg _) as [fv|] eqn:Hs; [|discriminate].
  simpl. unfold select_record.
  destruct (_ <? _); [discriminate|].
  intros E; inversion E. apply of_float_not_nan.
  destruct (fv !! Z.to_nat record0) as [f|] eqn:Hf; [|reflexivity].
  simpl. apply sort_records_perm in Hs.
  apply list_elem_of_lookup_2 in Hf. rewrite Hs in Hf.
  apply list_elem_of_In, in_map_iff in Hf as (tok & <- & _).
  apply stored_not_nan.
Qed.

Lemma ge_refl x : Float32.is_nan x = false -> Float32.ge x x = true.
Proof.
  intros H. apply Float32Facts.not_lt_ge; auto using lt_irrefl.
Qed.

(** ** The conversion of tokens, lines 19-34 *)

(** X1: [str_vec_to_float_vec] returns one float per token, in the order
    of the tokens: slot [i] holds what the extraction of token [i] leaves
    there, whatever the other tokens are; and it writes one diagnostic for
    each token whose extraction fails, and nothing else. *)
Theorem X1_conversion_slotwise (str_vec : list string) :
  length (str_vec_to_float_vec str_vec).1 = length str_vec /\
  (forall (i : nat) (tok : string),
      str_vec !! i = Some tok ->
      (str_vec_to_float_vec str_vec).1 !! i = Some (stored tok)) /\
  (str_vec_to_float_vec str_vec).2
  = replicate (length (List.filter failed str_vec)) msg_float.
Proof.
  rewrite str_vec_to_float_vec_eq. simpl. repeat split.
  - apply length_map.
  - intros i tok H. rewrite list_lookup_fmap_Some. eauto.
  - apply diagnostics_count.
Qed.

Lemma X1_witness :
  (str_vec_to_float_vec ["7"; "x"; "12"]%string).1 !! 2%nat
  = Some (stored "12").
Proof.
  apply (proj1 (proj2 (X1_conversion_slotwise ["7"; "x"; "12"]%string))).
  reflexivity.
Defined.

(** X2: converting the concatenation of two token vectors gives the
    concatenation of the floats and of the diagnostics of each: no state is
    carried from one token to the next. *)
Theorem X2_conversion_append (l1 l2 : list string) :
  str_vec_to_float_vec (l1 ++ l2)
  = ((str_vec_to_float_vec l1).1 ++ (str_vec_to_float_vec l2).1,
     (str_vec_to_float_vec l1).2 ++ (str_vec_to_float_vec l2).2).
Proof.
  rewrite !str_vec_to_float_vec_eq. simpl.
  rewrite !map_app, concat_app. reflexivity.
Qed.

(** ** The matrix as a whole, lines 80-159 *)

(** X3: the matrix returned after the loops carries the [dimnames] of
    [myMat]; the matrix returned on a configuration error carries none. *)
Theorem X3_dimnames (myMat : StringMatrix) (cfg : Config) :
  n_dimnames (masplit myMat cfg)
  = match masplit_run myMat cfg with
    | ReturnRetMat _ => s_dimnames myMat
    | ReturnNaMat _ => None
    end.
Proof.
  unfold masplit.
  destruct (masplit_run myMat cfg) as [st|st] eqn:E; [reflexivity|].
  apply masplit_run_retMat in E as (_ & (_ & _ & F3 & _) & _). exact F3.
Qed.

(** X4: on a matrix without rows or without columns, and [record] at
    least one, the loops do nothing: the empty matrix with the shape and
    labels of [myMat] is returned and nothing is reported, whatever
    [decreasing] is. *)
Theorem X4_empty_matrix (myMat : StringMatrix) (cfg : Config) :
  s_nrow myMat = 0%nat \/ s_ncol myMat = 0%nat -> 1 <= record cfg ->
  masplit_run myMat cfg = ReturnRetMat (initial myMat) /\
  n_data (masplit myMat cfg) = [] /\
  n_nrow (masplit myMat cfg) = s_nrow myMat /\
  n_ncol (masplit myMat cfg) = s_ncol myMat.
Proof.
  intros H Hr.
  assert (masplit_run myMat cfg = ReturnRetMat (initial myMat)) as E.
  { unfold masplit_run, cell_loops.
    destruct (Z.ltb_spec (record cfg) 1); [lia|]. simpl.
    destruct H as [H|H]; rewrite H; simpl; [reflexivity|].
    rewrite for_each_skip; reflexivity. }
  split; [exact E|]. rewrite (masplit_retMat _ _ _ E). simpl.
  repeat split.
  destruct H as [H|H]; rewrite H; [|rewrite Nat.mul_0_r]; reflexivity.
Qed.

Lemma X4_witness :
  masplit_run no_rows (with_decreasing 9 default_Config)
  = ReturnRetMat (initial no_rows).
Proof.
  apply (X4_empty_matrix no_rows (with_decreasing 9 default_Config)).
  - left. reflexivity.
  - simpl. lia.
Defined.

(** X5: the elements are reduced independently: when the call on
    [myMat] completes, its result at a position is the result of the call
    on the 1x1 matrix holding that element alone, which completes too. *)
Theorem X5_cellwise
    (myMat : StringMatrix) (cfg : Config) (st : state) (i j : nat) :
  masplit_run myMat cfg = ReturnRetMat st ->
  (i < s_nrow myMat)%nat -> (j < s_ncol myMat)%nat ->
  (exists st1,
      masplit_run (single (s_at myMat i j)) cfg = ReturnRetMat st1) /\
  n_at (masplit myMat cfg) i j
  = n_at (masplit (single (s_at myMat i j)) cfg) 0 0.
Proof.
  intros E Hi Hj.
  pose proof (masplit_run_retMat _ _ _ E) as (Hr & _ & N).
  destruct (masplit_run_completes (single (s_at myMat i j)) cfg Hr)
    as [st1 E1].
  { intros a b Ha Hb. simpl in Ha, Hb.
    assert (a = 0%nat) as -> by lia. assert (b = 0%nat) as -> by lia.
    exact (N i j Hi Hj). }
  split; [eauto|].
  rewrite (masplit_run_at _ _ _ _ _ E Hi Hj).
  rewrite (masplit_run_at _ _ _ 0 0 E1) by (simpl; lia).
  reflexivity.
Qed.

Lemma X5_witness :
  n_at (masplit sample default_Config) 1 1
  = n_at (masplit (single (s_at sample 1 1)) default_Config) 0 0.
Proof.
  apply (X5_cellwise sample default_Config
           (locals (masplit_run sample default_Config)) 1 1).
  - vm_compute. reflexivity.
  - simpl. lia.
  - simpl. lia.
Defined.

(** X6: with [count] equal to 1 the arguments [record] (as long as it is
    at least one), [sort] and [decreasing] have no effect at all: two calls
    that differ only in them return the same matrix and write the same
    diagnostics. *)
Theorem X6_count_ignores_selection
    (myMat : StringMatrix) (cfg cfg' : Config) :
  count cfg = 1 -> count cfg' = 1 -> delim cfg = delim cfg' ->
  1 <= record cfg -> 1 <= record cfg' ->
  masplit_run myMat cfg = masplit_run myMat cfg'.
Proof.
  intros Hc Hc' Hd Hr Hr'. apply masplit_run_ext; [assumption..|].
  intros c. unfold reduce_cell. rewrite Hd, Hc, Hc'. reflexivity.
Qed.

Lemma X6_witness :
  masplit_run sample (with_count 1 default_Config)
  = masplit_run sample
      (with_count 1 (with_record 7 (with_sort 0 (with_decreasing 4
                                                   default_Config)))).
Proof.
  apply (X6_count_ignores_selection sample);
    try reflexivity; simpl; lia.
Defined.

(** X7: when [sort] is not 1, [decreasing] has no effect: any value of
    it, also one that is neither 0 nor 1, gives the same return, matrix
    and diagnostics. *)
Theorem X7_decreasing_unused_without_sort
    (myMat : StringMatrix) (cfg : Config) (d : Z) :
  sort cfg <> 1 ->
  masplit_run myMat (with_decreasing d cfg) = masplit_run myMat cfg.
Proof.
  intros Hs.
  destruct (Z.ltb_spec (record cfg) 1) as [Hr|Hr].
  - rewrite !masplit_run_record by (simpl; lia). reflexivity.
  - apply masplit_run_ext; [simpl; lia..|].
    intros c. unfold reduce_cell, sort_records. simpl.
    destruct (Z.eqb_spec (sort cfg) 1); [contradiction|reflexivity].
Qed.

Lemma X7_witness :
  masplit_run sample (with_decreasing 5 (with_sort 0 default_Config))
  = masplit_run sample (with_sort 0 default_Config).
Proof.
  apply (X7_decreasing_unused_without_sort sample
           (with_sort 0 default_Config) 5).
  discriminate.
Defined.

(** ** Selection, lines 129-145 *)

(** X8: in select mode with a defined sorting step, an element that is
    not missing gives [NA_REAL] exactly when its text has fewer tokens than
    [record]: sorting never changes whether a record exists, and a record
    that exists is never reported as missing. *)
Theorem X8_missing_iff_too_few_tokens
    (myMat : StringMatrix) (cfg : Config) (i j : nat) (s : string) :
  count cfg <> 1 -> sortable cfg -> 1 <= record cfg ->
  (i < s_nrow myMat)%nat -> (j < s_ncol myMat)%nat ->
  s_at myMat i j = mkChar s ->
  n_at (masplit myMat cfg) i j = Some NA_REAL <->
  Z.of_nat (length (vcfRCommon.strsplit s [] (first_char (delim cfg))))
  < record cfg.
Proof.
  intros Hc Hv Hr Hi Hj Hs.
  destruct (sortable_completes myMat cfg Hr (or_intror Hv)) as [st E].
  rewrite (masplit_run_at _ _ _ _ _ E Hi Hj), Hs.
  destruct (sort_records_sortable cfg (parsed cfg s) Hv) as (fv & Hfv & Hp).
  rewrite (reduce_cell_select cfg _ s fv Hc Hfv).
  apply Permutation_length in Hp.
  rewrite parsed_eq, length_map in Hp.
  unfold select_record, vcfRCommon.strsplit. simpl. rewrite <- Hp.
  destruct (Z.ltb_spec (Z.of_nat (length fv)) (record cfg - 1 + 1));
    split; intros; try reflexivity; try discriminate; lia.
Qed.

Lemma X8_witness :
  n_at (masplit sample (with_record 2 default_Config)) 0 1 = Some NA_REAL <->
  Z.of_nat (length (vcfRCommon.strsplit "9" []
                      (first_char (delim (with_record 2 default_Config)))))
  < record (with_record 2 default_Config).
Proof.
  apply (X8_missing_iff_too_few_tokens sample
           (with_record 2 default_Config) 0 1 "9").
  - discriminate.
  - right. right. reflexivity.
  - simpl. lia.
  - simpl. lia.
  - simpl. lia.
  - reflexivity.
Defined.

(** X9: with sorting on and [record] equal to 1, the result for an
    element that is not missing is one of its parsed values, and it is
    greater than or equal to every parsed value when [decreasing] is 1 (the
    maximum) and less than or equal to every one when [decreasing] is 0
    (the minimum). *)
Theorem X9_first_record_is_extremum
    (myMat : StringMatrix) (cfg : Config) (i j : nat) (s : string) :
  count cfg <> 1 -> sort cfg = 1 -> record cfg = 1 ->
  decreasing cfg = 1 \/ decreasing cfg = 0 ->
  (i < s_nrow myMat)%nat -> (j < s_ncol myMat)%nat ->
  s_at myMat i j = mkChar s ->
  exists f : Float32.float,
    In f (parsed cfg s) /\
    n_at (masplit myMat cfg) i j = Some (Real (Float64.of_float f)) /\
    forall x, In x (parsed cfg s) ->
              if decreasing cfg =? 1 then Float32.ge f x = true
              else Float32.le f x = true.
Proof.
  intros Hc Hso Hr Hd Hi Hj Hs.
  assert (sortable cfg) as Hv by (unfold sortable; tauto).
  destruct (sortable_completes myMat cfg ltac:(lia) (or_intror Hv))
    as [st E].
  rewrite (masplit_run_at _ _ _ _ _ E Hi Hj), Hs, Hr.
  pose proof (parsed_not_nan cfg s) as Hnan.
  assert (exists comp : Float32.float -> Float32.float -> bool,
             sort_records cfg (parsed cfg s)
             = Some (std_sort comp (parsed cfg s)) /\
             ordered comp (std_sort comp (parsed cfg s)) /\
             forall f x, Float32.is_nan f = false ->
                         Float32.is_nan x = false ->
                         (comp x f = false \/ x = f) ->
                         if decreasing cfg =? 1 then Float32.ge f x = true
                         else Float32.le f x = true)
    as (comp & Hsort & Hord & Hcmp).
  { unfold sort_records. rewrite Hso. simpl.
    destruct Hd as [Hd|Hd]; rewrite Hd; simpl.
    - exists greater. split; [reflexivity|]. split.
      + apply (std_sort_ordered greater
                 (fun x => Float32.is_nan x = false)
                 greater_asym greater_negtrans). exact Hnan.
      + intros f x Hf Hx [H| ->]; [|apply ge_refl; exact Hf].
        apply Float32Facts.not_lt_ge; assumption.
    - exists lesser. split; [reflexivity|]. split.
      + apply (std_sort_ordered lesser
                 (fun x => Float32.is_nan x = false)
                 lesser_asym lesser_negtrans). exact Hnan.
      + intros f x Hf Hx [H| ->]; [|apply (ge_refl f); exact Hf].
        change (Float32.ge x f = true).
        apply Float32Facts.not_lt_ge; assumption. }
  set (sorted := std_sort comp (parsed cfg s)) in *.
  assert (sorted ≡ₚ parsed cfg s) as Hp by apply std_sort_perm.
  assert (length (parsed cfg s) = S (occurrences (first_char (delim cfg)) s))
    as Hlen by (rewrite parsed_eq, length_map; apply split_from_length).
  destruct (lookup_lt_is_Some_2 sorted 0) as [f Hf].
  { rewrite (Permutation_length Hp), Hlen. lia. }
  assert (f ∈ parsed cfg s) as Hin
    by (rewrite <- Hp; eapply list_elem_of_lookup_2, Hf).
  exists f. split; [apply list_elem_of_In, Hin|]. split.
  - rewrite (reduce_cell_select cfg _ s sorted Hc Hsort).
    unfold select_record.
    pose proof (lookup_lt_Some _ _ _ Hf) as Hlt.
    destruct (Z.ltb_spec (Z.of_nat (length sorted)) (1 - 1 + 1)); [lia|].
    change (Z.to_nat (1 - 1)) with 0%nat. rewrite Hf. reflexivity.
  - intros x Hx. rewrite Forall_forall in Hnan.
    apply Hcmp; [apply Hnan, Hin|apply Hnan, list_elem_of_In, Hx|].
    apply list_elem_of_In in Hx. rewrite <- Hp in Hx.
    apply list_elem_of_lookup_1 in Hx as [q Hq].
    destruct q as [|q].
    + right. rewrite Hf in Hq. inversion Hq. reflexivity.
    + left. apply (ordered_lookup comp sorted 0 (S q) f x Hord);
        [lia|assumption..].
Qed.

Lemma X9_witness :
  exists f : Float32.float,
    In f (parsed default_Config "7,2,12") /\
    n_at (masplit sample default_Config) 0 0
    = Some (Real (Float64.of_float f)) /\
    forall x, In x (parsed default_Config "7,2,12") ->
              if decreasing default_Config =? 1 then Float32.ge f x = true
              else Float32.le f x = true.
Proof.
  apply (X9_first_record_is_extremum sample default_Config 0 0 "7,2,12").
  - discriminate.
  - reflexivity.
  - reflexivity.
  - left. reflexivity.
  - simpl. lia.
  - simpl. lia.
  - reflexivity.
Defined.

(** X10: on the values parsed from a cell, the comparators [greater] and
    [lesser] meet what [std::sort] requires of its comparator: each is
    irreflexive, asymmetric and transitive, being unordered by it is
    transitive, and [lesser] is [greater] with the operands exchanged. *)
Theorem X10_comparators_strict_weak
    (cfg : Config) (s : string) (a b c : Float32.float) :
  In a (parsed cfg s) -> In b (parsed cfg s) -> In c (parsed cfg s) ->
  greater a a = false /\
  (greater a b = true -> greater b a = false) /\
  (greater a b = true -> greater b c = true -> greater a c = true) /\
  (greater a b = false -> greater b a = false ->
   greater b c = false -> greater c b = false ->
   greater a c = false /\ greater c a = false) /\
  lesser a b = greater b a.
Proof.
  intros Ha Hb Hc.
  pose proof (parsed_not_nan cfg s) as Hnan. rewrite Forall_forall in Hnan.
  apply list_elem_of_In, Hnan in Ha, Hb, Hc.
  split; [apply lt_irrefl|]. split; [apply greater_asym|].
  split; [intros H1 H2; exact (lt_trans c b a H2 H1)|].
  split; [|reflexivity].
  intros H1 H2 H3 H4. split.
  - apply (greater_negtrans a b c); assumption.
  - apply (greater_negtrans c b a); assumption.
Qed.

Lemma X10_witness :
  greater (stored "7") (stored "7") = false /\
  (greater (stored "7") (stored "2") = true ->
   greater (stored "2") (stored "7") = false) /\
  (greater (stored "7") (stored "2") = true ->
   greater (stored "2") (stored "12") = true ->
   greater (stored "7") (stored "12") = true) /\
  (greater (stored "7") (stored "2") = false ->
   greater (stored "2") (stored "7") = false ->
   greater (stored "2") (stored "12") = false ->
   greater (stored "12") (stored "2") = false ->
   greater (stored "7") (stored "12") = false /\
   greater (stored "12") (stored "7") = false) /\
  lesser (stored "7") (stored "2") = greater (stored "2") (stored "7").
Proof.
  apply (X10_comparators_strict_weak default_Config "7,2,12").
  - vm_compute. tauto.
  - vm_compute. tauto.
  - vm_compute. tauto.
Defined.

(** ** Diagnostics and numeric results *)

(** X11: a call that returns after the loops has written nothing but
    conversion diagnostics; a call that returns the 1x1 matrix of the
    error case has written exactly one configuration diagnostic, as its
    last line, after conversion diagnostics only. *)
Theorem X11_diagnostics (myMat : StringMatrix) (cfg : Config) :
  match masplit_run myMat cfg with
  | ReturnRetMat st => only_conversion_diagnostics (Rcerr st)
  | ReturnNaMat st =>
      exists pre, only_conversion_diagnostics pre /\
                  (Rcerr st = pre ++ [msg_record] \/
                   Rcerr st = pre ++ [msg_decreasing])
  end.
Proof.
  unfold masplit_run.
  destruct (Z.ltb_spec (record cfg) 1).
  { exists []. split; [constructor|left; reflexivity]. }
  set (Q := fun st : state => only_conversion_diagnostics (Rcerr st)).
  set (E := fun st : state =>
              exists pre, only_conversion_diagnostics pre /\
                          Rcerr st = pre ++ [msg_decreasing]).
  assert (match cell_loops myMat cfg (record cfg - 1) (initial myMat) with
          | Next st' => Q st'
          | Exit st' => E st'
          end) as H'.
  { unfold cell_loops. apply for_each_post; [|constructor].
    intros i st1 H1. apply for_each_post; [|exact H1].
    intros j st2 H2. unfold cell_step.
    pose proof (reduce_cell_log cfg (record cfg - 1) (s_at myMat i j)) as L.
    destruct (reduce_cell cfg (record cfg - 1) (s_at myMat i j))
      as [[v|] err]; simpl.
    - apply Forall_app. split; assumption.
    - destruct L as (pre & Hpre & ->). exists (Rcerr st2 ++ pre).
      split; [apply Forall_app; split; assumption|].
      rewrite app_assoc. reflexivity. }
  destruct (cell_loops _ _ _ _) as [st'|st']; [exact H'|].
  destruct H' as (pre & Hpre & Heq). exists pre. auto.
Qed.

(** X12: every number in the matrix returned after the loops is an
    ordinary number: the only not-a-number entries of a result are the
    [NA_REAL] that mark missing values. *)
Theorem X12_results_not_nan
    (myMat : StringMatrix) (cfg : Config) (st : state) (i j : nat)
    (x : Float64.double) :
  masplit_run myMat cfg = ReturnRetMat st ->
  (i < s_nrow myMat)%nat -> (j < s_ncol myMat)%nat ->
  n_at (masplit myMat cfg) i j = Some (Real x) ->
  Float32.is_nan x = false.
Proof.
  intros E Hi Hj. rewrite (masplit_run_at _ _ _ _ _ E Hi Hj).
  apply reduce_cell_not_nan.
Qed.

Lemma X12_witness :
  Float32.is_nan (Float64.of_float (stored "3.5")) = false.
Proof.
  apply (X12_results_not_nan sample default_Config
           (locals (masplit_run sample default_Config)) 1 1).
  - vm_compute. reflexivity.
  - simpl. lia.
  - simpl. lia.
  - vm_compute. reflexivity.
Defined.

(** X13: in select mode without sorting, the result for an element that
    is not missing is the value stored for its [record]-th token, in the
    order of the text. *)
Theorem X13_unsorted_selection
    (myMat : StringMatrix) (cfg : Config) (i j : nat) (s : string)
    (k : nat) (tok : string) :
  count cfg <> 1 -> sort cfg <> 1 -> record cfg = Z.of_nat k + 1 ->
  (i < s_nrow myMat)%nat -> (j < s_ncol myMat)%nat ->
  s_at myMat i j = mkChar s ->
  vcfRCommon.strsplit s [] (first_char (delim cfg)) !! k = Some tok ->
  n_at (masplit myMat cfg) i j = Some (Real (Float64.of_float (stored tok))).
Proof.
  intros Hc Hso Hr Hi Hj Hs Hk.
  assert (sortable cfg) as Hv by (left; exact Hso).
  destruct (sortable_completes myMat cfg ltac:(lia) (or_intror Hv))
    as [st E].
  rewrite (masplit_run_at _ _ _ _ _ E Hi Hj), Hs.
  assert (sort_records cfg (parsed cfg s) = Some (parsed cfg s)) as Hsort.
  { unfold sort_records.
    destruct (Z.eqb_spec (sort cfg) 1); [contradiction|reflexivity]. }
  rewrite (reduce_cell_select cfg _ s _ Hc Hsort).
  assert (parsed cfg s !! k = Some (stored tok)) as Hslot.
  { rewrite parsed_eq, list_lookup_fmap_Some. eauto. }
  pose proof (lookup_lt_Some _ _ _ Hslot) as Hlt.
  unfold select_record. rewrite Hr.
  destruct (Z.ltb_spec (Z.of_nat (length (parsed cfg s)))
                       (Z.of_nat k + 1 - 1 + 1)); [lia|].
  replace (Z.to_nat (Z.of_nat k + 1 - 1)) with k by lia.
  rewrite Hslot. reflexivity.
Qed.

Lemma X13_witness :
  n_at (masplit sample (with_record 2 (with_sort 0 default_Config))) 0 0
  = Some (Real (Float64.of_float (stored "2"))).
Proof.
  apply (X13_unsorted_selection sample
           (with_record 2 (with_sort 0 default_Config)) 0 0 "7,2,12" 1 "2").
  - discriminate.
  - discriminate.
  - reflexivity.
  - simpl. lia.
  - simpl. lia.
  - reflexivity.
  - reflexivity.
Defined.
